(** * The xv6 buffer cache (kernel/bio.c) with a hash-map index

    A shallow embedding of [kernel/bio.c]: the buffer pool, the circular
    doubly linked recency list threaded through the pool with raw
    [prev]/[next] pointers, the hash map used for lookups, the two kinds of
    lock, and the operations [binit], [bget], [bread], [bwrite], [brelse],
    [bpin], [bunpin] and [set_cache_size]. *)

From stdpp Require Import base numbers option list gmap strings.

Open Scope Z_scope.

(** ** Machine integers *)

(** [uint] is a 32-bit unsigned integer, kept as an [N] below [2^32];
    arithmetic wraps around. *)
Definition UINT_MOD : N := 4294967296%N.

Definition uint_inc (n : N) : N := ((n + 1) mod UINT_MOD)%N.
Definition uint_dec (n : N) : N := ((n + (UINT_MOD - 1)) mod UINT_MOD)%N.

(** ** Pointers into [bcache] *)

(** A [struct buf *] of this file is [NULL], [&bcache.head] or
    [&bcache.buf[i]]. *)
Inductive ptr : Type :=
  | Null
  | Head
  | Buf (i : nat).

Global Instance ptr_eq_dec : EqDecision ptr.
Proof. solve_decision. Defined.

(** ** Structures *)

(** Modelled from the spec: [struct sleeplock] (sleeplock.h is not among the
    sources), the blocking per-buffer content lock: whether it is held, and
    the process that holds it. *)
Record sleeplock : Type := mksleeplock {
  locked : bool;
  lpid : nat
}.

(** Modelled from the spec: [struct buf] (buf.h is not among the sources),
    with the fields bio.c uses: the validity flag (an [int]), the device and
    block number ([uint]), the content lock, the reference count (a count of
    holders, [uint]), the two links of the recency list and the payload. *)
Record buf : Type := mkbuf {
  valid : Z;
  dev : N;
  blockno : N;
  lock : sleeplock;
  refcnt : N;
  prev : ptr;
  next : ptr;
  data : list Z
}.

Definition set_valid (v : Z) (b : buf) : buf :=
  mkbuf v (dev b) (blockno b) (lock b) (refcnt b) (prev b) (next b) (data b).
Definition set_dev (v : N) (b : buf) : buf :=
  mkbuf (valid b) v (blockno b) (lock b) (refcnt b) (prev b) (next b) (data b).
Definition set_blockno (v : N) (b : buf) : buf :=
  mkbuf (valid b) (dev b) v (lock b) (refcnt b) (prev b) (next b) (data b).
Definition set_lock (v : sleeplock) (b : buf) : buf :=
  mkbuf (valid b) (dev b) (blockno b) v (refcnt b) (prev b) (next b) (data b).
Definition set_refcnt (v : N) (b : buf) : buf :=
  mkbuf (valid b) (dev b) (blockno b) (lock b) v (prev b) (next b) (data b).
Definition set_prev (v : ptr) (b : buf) : buf :=
  mkbuf (valid b) (dev b) (blockno b) (lock b) (refcnt b) v (next b) (data b).
Definition set_next (v : ptr) (b : buf) : buf :=
  mkbuf (valid b) (dev b) (blockno b) (lock b) (refcnt b) (prev b) v (data b).
Definition set_data (v : list Z) (b : buf) : buf :=
  mkbuf (valid b) (dev b) (blockno b) (lock b) (refcnt b) (prev b) (next b) v.

(** The key of a block: device and block number. *)
Abbreviation key := (N * N)%type (only parsing).

Definition buf_key (b : buf) : key := (dev b, blockno b).

(** A transfer between a buffer and the device. *)
Inductive io_event : Type :=
  | IoRead (k : key)
  | IoWrite (k : key) (payload : list Z).

(** The global [bcache], together with the device it talks to: the spin lock
    (held or not), the pool [buf[NBUF]], the list head, the hash map and the
    recorded cache size; [disk] is the contents of the device and [io] the
    transfers performed so far, latest first. *)
Record bcache : Type := mkbcache {
  spin : bool;
  bufs : list buf;
  head : buf;
  cache_map : gmap key ptr;
  cache_size : Z;
  disk : gmap key (list Z);
  io : list io_event
}.

Definition set_spin (v : bool) (c : bcache) : bcache :=
  mkbcache v (bufs c) (head c) (cache_map c) (cache_size c) (disk c) (io c).
Definition set_bufs (v : list buf) (c : bcache) : bcache :=
  mkbcache (spin c) v (head c) (cache_map c) (cache_size c) (disk c) (io c).
Definition set_head (v : buf) (c : bcache) : bcache :=
  mkbcache (spin c) (bufs c) v (cache_map c) (cache_size c) (disk c) (io c).
Definition set_cache_map (v : gmap key ptr) (c : bcache) : bcache :=
  mkbcache (spin c) (bufs c) (head c) v (cache_size c) (disk c) (io c).
Definition set_size (v : Z) (c : bcache) : bcache :=
  mkbcache (spin c) (bufs c) (head c) (cache_map c) v (disk c) (io c).
Definition set_disk (v : gmap key (list Z)) (c : bcache) : bcache :=
  mkbcache (spin c) (bufs c) (head c) (cache_map c) (cache_size c) v (io c).
Definition set_io (v : list io_event) (c : bcache) : bcache :=
  mkbcache (spin c) (bufs c) (head c) (cache_map c) (cache_size c) (disk c) v.

(** [NBUF] (param.h is not among the sources) is the length of the pool. *)
Definition NBUF (c : bcache) : nat := length (bufs c).

(** The structure a pointer designates, if any. *)
Definition load (c : bcache) (p : ptr) : option buf :=
  match p with
  | Null => None
  | Head => Some (head c)
  | Buf i => bufs c !! i
  end.

(** Overwrite the structure a pointer designates. *)
Definition store (c : bcache) (p : ptr) (b : buf) : bcache :=
  match p with
  | Null => c
  | Head => set_head b c
  | Buf i => set_bufs (<[i:=b]> (bufs c)) c
  end.

(** ** Outcomes of kernel code *)

(** A call returns, panics (and never returns), goes to sleep waiting for the
    content lock of a buffer, spins on the cache lock, dereferences a pointer
    that designates nothing, or loops for ever. *)
Inductive outcome (A : Type) : Type :=
  | Ret (a : A) (c : bcache)
  | Panic (msg : string) (c : bcache)
  | Sleep (b : ptr) (c : bcache)
  | Spin (c : bcache)
  | Fault
  | Diverge.

Arguments Ret {A} a c.
Arguments Panic {A} msg c.
Arguments Sleep {A} b c.
Arguments Spin {A} c.
Arguments Fault {A}.
Arguments Diverge {A}.

Definition M (A : Type) : Type := bcache → outcome A.

Definition ret {A} (a : A) : M A := fun c => Ret a c.

Definition bind {A B} (m : M A) (f : A → M B) : M B := fun c =>
  match m c with
  | Ret a c' => f a c'
  | Panic msg c' => Panic msg c'
  | Sleep b c' => Sleep b c'
  | Spin c' => Spin c'
  | Fault => Fault
  | Diverge => Diverge
  end.

Notation "x <- m ;; k" := (bind m (λ x, k))
  (at level 20, m at level 99, k at level 200, only parsing).

Definition panic {A} (msg : string) : M A := fun c => Panic msg c.

(** [*p] as an rvalue. *)
Definition rd (p : ptr) : M buf := fun c =>
  match load c p with
  | Some b => Ret b c
  | None => Fault
  end.

(** [p->field = v], as an update of the structure. *)
Definition wr (p : ptr) (f : buf → buf) : M unit := fun c =>
  match load c p with
  | Some b => Ret tt (store c p (f b))
  | None => Fault
  end.

Definition gets {A} (f : bcache → A) : M A := fun c => Ret (f c) c.
Definition modify (f : bcache → bcache) : M unit := fun c => Ret tt (f c).

(** ** The collaborators of bio.c *)

(** Modelled from the spec: [acquire]/[release]/[initlock] of the cache lock
    (spinlock.c is not among the sources), a mutual-exclusion lock with
    short critical sections: acquiring a held lock waits. *)
Definition acquire : M unit := fun c =>
  if spin c then Spin c else Ret tt (set_spin true c).
Definition release : M unit := modify (set_spin false).
Definition initlock : M unit := modify (set_spin false).

(** Modelled from the spec: the content lock (sleeplock.c is not among the
    sources): acquiring a held lock blocks the caller; the lock records its
    holder, which [holdingsleep] compares with the caller. *)
Definition initsleeplock (b : ptr) : M unit :=
  wr b (set_lock (mksleeplock false 0%nat)).

Definition acquiresleep (pid : nat) (b : ptr) : M unit :=
  x <- rd b;;
  if locked (lock x) then (λ c, Sleep b c)
  else wr b (set_lock (mksleeplock true pid)).

Definition releasesleep (b : ptr) : M unit :=
  wr b (set_lock (mksleeplock false 0%nat)).

Definition holding (pid : nat) (x : buf) : bool :=
  locked (lock x) && bool_decide (lpid (lock x) = pid).

Definition holdingsleep (pid : nat) (b : ptr) : M bool :=
  x <- rd b;; ret (holding pid x).

(** Modelled from the spec: the hash map (hashmap.h is not among the
    sources), an associative structure from (device, block number) to a
    buffer: [hashmap_create] gives the empty map, [hashmap_put] inserts or
    replaces the entry of its key, [hashmap_get] gives the entry of the key
    or [NULL]. *)
Definition hashmap_create : gmap key ptr := ∅.

Definition hashmap_put (d b : N) (p : ptr) : M unit :=
  modify (fun c => set_cache_map (<[(d, b) := p]> (cache_map c)) c).

Definition hashmap_get (d b : N) : M ptr :=
  gets (fun c => default Null (cache_map c !! (d, b))).

(** Modelled from the spec: [virtio_disk_rw] (virtio_disk.c is not among the
    sources), the synchronous transfer between the payload of a buffer and
    the block of the device its [dev] and [blockno] name. *)
Definition virtio_disk_rw (b : ptr) (write : bool) : M unit :=
  x <- rd b;;
  if write then
    modify (fun c => set_io (IoWrite (buf_key x) (data x) :: io c)
                       (set_disk (<[buf_key x := data x]> (disk c)) c))
  else
    blk <- gets (λ c, default [] (disk c !! buf_key x));;
    _ <- wr b (set_data blk);;
    modify (fun c => set_io (IoRead (buf_key x) :: io c) c).

(** ** The operations of bio.c *)

Definition DEFAULT_NBUF : Z := 128.

(** The body of the loop of [binit], for [b = &bcache.buf[i]] and the [n]
    buffers that remain. *)
Fixpoint binit_loop (n i : nat) : M unit :=
  match n with
  | O => ret tt
  | S n' =>
      let b := Buf i in
      h <- rd Head;;
      _ <- wr b (set_next (next h));;
      _ <- wr b (set_prev Head);;
      _ <- initsleeplock b;;
      h <- rd Head;;
      _ <- wr (next h) (set_prev b);;
      _ <- wr Head (set_next b);;
      x <- rd b;;
      _ <- hashmap_put (dev x) (blockno x) b;;
      binit_loop n' (S i)
  end.

Definition binit : M unit :=
  _ <- initlock;;
  _ <- wr Head (set_prev Head);;
  _ <- wr Head (set_next Head);;
  _ <- modify (set_cache_map hashmap_create);;
  _ <- modify (set_size DEFAULT_NBUF);;
  n <- gets NBUF;;
  binit_loop n 0.

(** The recycling of buffer [b] for the block [(d, bn)]. *)
Definition bget_recycle (pid : nat) (d bn : N) (b : ptr) : M ptr :=
  _ <- wr b (set_dev d);;
  _ <- wr b (set_blockno bn);;
  _ <- wr b (set_valid 0);;
  _ <- wr b (set_refcnt 1%N);;
  _ <- hashmap_put d bn b;;
  _ <- release;;
  _ <- acquiresleep pid b;;
  ret b.

(** The loop of [bget] over the recency list, from [b] towards the head along
    [prev]. The loop of the source has no bound: [fuel] counts the buffers it
    may still visit, and running out of it is [Diverge]. *)
Fixpoint bget_scan (fuel : nat) (pid : nat) (d bn : N) (b : ptr) : M ptr :=
  if decide (b = Head) then
    _ <- release;;
    panic "bget: no buffers"
  else
    match fuel with
    | O => λ _, Diverge
    | S fuel' =>
        x <- rd b;;
        if (refcnt x =? 0)%N then bget_recycle pid d bn b
        else bget_scan fuel' pid d bn (prev x)
    end.

(** [bget]. A walk that visits more than [NBUF] buffers without reaching the
    head has visited one of them twice and never ends, so [S NBUF] buffers
    are all the loop is given. *)
Definition bget (pid : nat) (d bn : N) : M ptr :=
  _ <- acquire;;
  b <- hashmap_get d bn;;
  if decide (b = Null) then
    h <- rd Head;;
    n <- gets NBUF;;
    bget_scan (S n) pid d bn (prev h)
  else
    x <- rd b;;
    _ <- wr b (set_refcnt (uint_inc (refcnt x)));;
    _ <- release;;
    _ <- acquiresleep pid b;;
    ret b.

(** The part of [bread] that follows [bget]. *)
Definition bread_fill (b : ptr) : M ptr :=
  x <- rd b;;
  _ <- (if valid x =? 0 then
          _ <- virtio_disk_rw b false;;
          wr b (set_valid 1)
        else ret tt);;
  ret b.

Definition bread (pid : nat) (d bn : N) : M ptr :=
  b <- bget pid d bn;;
  bread_fill b.

Definition bwrite (pid : nat) (b : ptr) : M unit :=
  h <- holdingsleep pid b;;
  _ <- (if negb h then panic "bwrite" else ret tt);;
  virtio_disk_rw b true.

Definition brelse (pid : nat) (b : ptr) : M unit :=
  h <- holdingsleep pid b;;
  _ <- (if negb h then panic "brelse" else ret tt);;
  _ <- releasesleep b;;
  _ <- acquire;;
  x <- rd b;;
  _ <- wr b (set_refcnt (uint_dec (refcnt x)));;
  x <- rd b;;
  _ <- (if (refcnt x =? 0)%N then
          x <- rd b;;
          _ <- wr (next x) (set_prev (prev x));;
          x <- rd b;;
          _ <- wr (prev x) (set_next (next x));;
          h <- rd Head;;
          _ <- wr b (set_next (next h));;
          _ <- wr b (set_prev Head);;
          h <- rd Head;;
          _ <- wr (next h) (set_prev b);;
          wr Head (set_next b)
        else ret tt);;
  release.

Definition bpin (b : ptr) : M unit :=
  _ <- acquire;;
  x <- rd b;;
  _ <- wr b (set_refcnt (uint_inc (refcnt x)));;
  release.

Definition bunpin (b : ptr) : M unit :=
  _ <- acquire;;
  x <- rd b;;
  _ <- (if (refcnt x <=? 0)%N then panic "bunpin: refcnt already zero"
        else ret tt);;
  x <- rd b;;
  _ <- wr b (set_refcnt (uint_dec (refcnt x)));;
  release.

Definition set_cache_size (size : Z) : M unit :=
  _ <- acquire;;
  _ <- modify (set_size size);;
  release.

(** ** The machine at boot *)

(** [bcache] has static storage: every field is zero before [binit] runs. *)
Definition buf0 : buf :=
  mkbuf 0 0%N 0%N (mksleeplock false 0%nat) 0%N Null Null [].

Definition boot (n : nat) (d : gmap key (list Z)) : bcache :=
  mkbcache false (replicate n buf0) buf0 ∅ 0 d [].

Definition state_of {A} (o : outcome A) : option bcache :=
  match o with
  | Ret _ c | Panic _ c | Sleep _ c | Spin c => Some c
  | Fault | Diverge => None
  end.


(** ** Views of the state *)

(** A buffer without its list links. *)
Definition meta (b : buf) : buf := set_prev Null (set_next Null b).

(** The successor, the predecessor and the link-free contents of the
    structure a pointer designates. *)
Definition nx (c : bcache) (p : ptr) : option ptr := next <$> load c p.
Definition pv (c : bcache) (p : ptr) : option ptr := prev <$> load c p.
Definition mt (c : bcache) (p : ptr) : option buf := meta <$> load c p.

(** What the pointer writes of this file leave alone. *)
Definition frame (c c' : bcache) : Prop :=
  spin c' = spin c ∧ cache_map c' = cache_map c ∧ cache_size c' = cache_size c
  ∧ disk c' = disk c ∧ io c' = io c ∧ NBUF c' = NBUF c.

(** [p] is linked to [q]: [p->next == q] and [q->prev == p]. *)
Definition link (c : bcache) (p q : ptr) : Prop :=
  nx c p = Some q ∧ pv c q = Some p.

(** The nodes [l] lead from [p] to [q], linked both ways. *)
Fixpoint path (c : bcache) (p : ptr) (l : list ptr) (q : ptr) : Prop :=
  match l with
  | [] => link c p q
  | x :: l' => link c p x ∧ path c x l' q
  end.

(** The recency list of [c], from [head.next] (most recently used) to
    [head.prev] (least recently used), is [l]: every buffer of the pool
    once, circularly linked through the head. *)
Definition dll (c : bcache) (l : list nat) : Prop :=
  NoDup l ∧ (∀ i, i ∈ l ↔ (i < NBUF c)%nat) ∧ path c Head (Buf <$> l) Head.

(** ** Basic facts *)

Lemma frame_refl c : frame c c.
Proof. by repeat split. Qed.

Lemma frame_trans c1 c2 c3 : frame c1 c2 → frame c2 c3 → frame c1 c3.
Proof. unfold frame. intros (?&?&?&?&?&?) (?&?&?&?&?&?). repeat split; congruence. Qed.

Lemma load_store c p x y q :
  load c p = Some x →
  load (store c p y) q = if decide (q = p) then Some y else load c q.
Proof.
  intros Hp. destruct p as [| |i]; [done| |].
  - case_decide; subst; [done|]. by destruct q.
  - simpl in Hp. apply lookup_lt_Some in Hp.
    case_decide; subst; simpl.
    + by apply list_lookup_insert_eq.
    + destruct q as [| |j]; try done. simpl.
      apply list_lookup_insert_ne. congruence.
Qed.

Lemma frame_store c p y : frame c (store c p y).
Proof.
  destruct p; repeat split; try done. unfold NBUF; simpl.
  by rewrite length_insert.
Qed.

Lemma bind_ret {A B} (a : A) (k : A → M B) c : (x <- ret a;; k x) c = k a c.
Proof. done. Qed.

Lemma bind_rd {B} p (k : buf → M B) c x :
  load c p = Some x → (y <- rd p;; k y) c = k x c.
Proof. intros H. unfold bind, rd. by rewrite H. Qed.

Lemma bind_wr {B} p f (k : unit → M B) c x :
  load c p = Some x → (y <- wr p f;; k y) c = k tt (store c p (f x)).
Proof. intros H. unfold bind, wr. by rewrite H. Qed.

Lemma bind_modify {B} f (k : unit → M B) c :
  (y <- modify f;; k y) c = k tt (f c).
Proof. done. Qed.

Lemma bind_gets {A B} (f : bcache → A) (k : A → M B) c :
  (y <- gets f;; k y) c = k (f c) c.
Proof. done. Qed.

Lemma bind_acquire {B} (k : unit → M B) c :
  spin c = false → (y <- acquire;; k y) c = k tt (set_spin true c).
Proof. intros H. unfold bind, acquire. by rewrite H. Qed.

Lemma bind_release {B} (k : unit → M B) c :
  (y <- release;; k y) c = k tt (set_spin false c).
Proof. done. Qed.

Lemma bind_assoc {A B C} (m : M A) (f : A → M B) (g : B → M C) c :
  (y <- (x <- m;; f x);; g y) c = (x <- m;; y <- f x;; g y) c.
Proof. unfold bind. by destruct (m c). Qed.

Lemma nx_Some c p q : nx c p = Some q → ∃ x, load c p = Some x ∧ next x = q.
Proof. unfold nx. destruct (load c p); naive_solver. Qed.

Lemma pv_Some c p q : pv c p = Some q → ∃ x, load c p = Some x ∧ prev x = q.
Proof. unfold pv. destruct (load c p); naive_solver. Qed.

Lemma load_set_spin v c p : load (set_spin v c) p = load c p.
Proof. by destruct p. Qed.

Lemma load_set_cache_map v c p : load (set_cache_map v c) p = load c p.
Proof. by destruct p. Qed.

Lemma load_set_size v c p : load (set_size v c) p = load c p.
Proof. by destruct p. Qed.

Lemma load_set_disk v c p : load (set_disk v c) p = load c p.
Proof. by destruct p. Qed.

Lemma load_set_io v c p : load (set_io v c) p = load c p.
Proof. by destruct p. Qed.

(** ** Paths in the recency list *)

Lemma path_app c p l1 x l2 q :
  path c p (l1 ++ x :: l2) q ↔ path c p l1 x ∧ path c x l2 q.
Proof.
  revert p. induction l1 as [|y l1 IH]; intros p; simpl.
  - unfold link. naive_solver.
  - rewrite IH. naive_solver.
Qed.

Lemma path_snoc c p l x q :
  path c p (l ++ [x]) q ↔ path c p l x ∧ link c x q.
Proof. by rewrite path_app. Qed.

Lemma path_frame c c' p l q :
  (∀ a, a ∈ p :: l → nx c' a = nx c a) →
  (∀ a, a ∈ l ++ [q] → pv c' a = pv c a) →
  path c p l q → path c' p l q.
Proof.
  revert p. induction l as [|x l IH]; intros p Hn Hp; simpl; unfold link.
  - intros [H1 H2]. rewrite Hn, Hp by set_solver. done.
  - intros [[H1 H2] H3]. rewrite Hn, Hp by set_solver. split; [done|].
    apply IH; [| |done]; intros a Ha; [apply Hn|apply Hp]; set_solver.
Qed.

(** Membership goals from [NoDup] hypotheses. *)
Ltac nodup_solver :=
  repeat match goal with
  | H : NoDup (_ :: _) |- _ => apply NoDup_cons in H as [? ?]
  | H : NoDup (_ ++ _) |- _ => apply NoDup_app in H as (?&?&?)
  | H : NoDup [] |- _ => clear H
  end;
  set_solver.

(** Taking [b] out of the list: [b->next->prev = b->prev] and
    [b->prev->next = b->next]. *)
Lemma path_unlink c c' p l1 b l2 q pb nb :
  NoDup (p :: l1 ++ b :: l2) → NoDup (l1 ++ b :: l2 ++ [q]) →
  path c p (l1 ++ b :: l2) q →
  pv c b = Some pb → nx c b = Some nb →
  (∀ a, nx c' a = if decide (a = pb) then Some nb else nx c a) →
  (∀ a, pv c' a = if decide (a = nb) then Some pb else pv c a) →
  path c' p (l1 ++ l2) q.
Proof.
  intros ND1 ND2 Hpath Hpb Hnb Hnx Hpv.
  apply path_app in Hpath as [H1 H2].
  assert (∀ a, a ≠ pb → nx c' a = nx c a) as Fn.
  { intros a Ha. rewrite Hnx. by case_decide. }
  assert (∀ a, a ≠ nb → pv c' a = pv c a) as Fp.
  { intros a Ha. rewrite Hpv. by case_decide. }
  assert (nx c' pb = Some nb) as En by (rewrite Hnx; by case_decide).
  assert (pv c' nb = Some pb) as Ep by (rewrite Hpv; by case_decide).
  destruct l2 as [|z l2].
  - destruct H2 as [H2 H2']. assert (nb = q) as -> by congruence.
    rewrite app_nil_r.
    destruct l1 as [|y l1 _] using rev_ind.
    + destruct H1 as [H1 H1']. assert (pb = p) as -> by congruence. done.
    + apply path_snoc in H1 as [H1 [H0 H0']].
      assert (pb = y) as -> by congruence.
      apply path_snoc. split; [|done].
      apply (path_frame c); [| |done]; intros a Ha; [apply Fn|apply Fp];
        intros ->; nodup_solver.
  - destruct H2 as [[H2 H2'] H3]. assert (nb = z) as -> by congruence.
    assert (pb ∈ p :: l1) as Hin.
    { destruct l1 as [|y l1 _] using rev_ind.
      - destruct H1 as [H1 H1']. assert (pb = p) by congruence. set_solver.
      - apply path_snoc in H1 as [H1 [H0 H0']].
        assert (pb = y) by congruence. set_solver. }
    assert (path c' z l2 q) as H3'.
    { apply (path_frame c); [| |done]; intros a Ha; [apply Fn|apply Fp];
        intros ->; nodup_solver. }
    destruct l1 as [|y l1 _] using rev_ind.
    + destruct H1 as [H1 H1']. assert (pb = p) as -> by congruence.
      simpl. done.
    + apply path_snoc in H1 as [H1 [H0 H0']].
      assert (pb = y) as -> by congruence.
      rewrite <-app_assoc. simpl. apply path_app. split; [|by simpl].
      apply (path_frame c); [| |done]; intros a Ha; [apply Fn|apply Fp];
        intros ->; nodup_solver.
Qed.

(** Putting [b] at the front of the list: [b->next = head.next],
    [b->prev = &head], [head.next->prev = b] and [head.next = b]. *)
Lemma path_push c c' b l hn :
  NoDup (Head :: b :: l) →
  path c Head l Head → nx c Head = Some hn →
  (∀ a, nx c' a = if decide (a = Head) then Some b
                  else if decide (a = b) then Some hn else nx c a) →
  (∀ a, pv c' a = if decide (a = hn) then Some b
                  else if decide (a = b) then Some Head else pv c a) →
  path c' Head (b :: l) Head.
Proof.
  intros ND Hpath Hhn Hnx Hpv.
  apply NoDup_cons in ND as [N1 N2]. apply NoDup_cons in N2 as [N2 N3].
  assert (b ≠ Head) as Hb by set_solver.
  assert (nx c' Head = Some b) as E1 by (rewrite Hnx; by case_decide).
  assert (nx c' b = Some hn) as E2 by (rewrite Hnx; by repeat case_decide).
  assert (pv c' hn = Some b) as E3 by (rewrite Hpv; by case_decide).
  destruct l as [|x l].
  - destruct Hpath as [H1 H2]. assert (hn = Head) as -> by congruence.
    simpl. unfold link. split_and!; try done.
    rewrite Hpv. repeat case_decide; congruence.
  - destruct Hpath as [[H1 H2] H3]. assert (hn = x) as -> by congruence.
    simpl. unfold link. split_and!; try done.
    + rewrite Hpv. repeat case_decide; try congruence. set_solver.
    + apply (path_frame c); [| |done]; intros a Ha.
      * rewrite Hnx. repeat case_decide; subst; set_solver.
      * rewrite Hpv. apply NoDup_cons in N3 as [N3 _].
        repeat case_decide; subst; try done; set_solver.
Qed.

(** ** The effect of one write on the views *)

Lemma store_is_Some c p x y q :
  load c p = Some x → is_Some (load (store c p y) q) ↔ is_Some (load c q).
Proof.
  intros H. rewrite (load_store c p x) by done.
  case_decide; subst; [|done]. rewrite H. split; eauto.
Qed.

Lemma store_next c p x v :
  load c p = Some x →
  (∀ a, nx (store c p (set_next v x)) a =
        if decide (a = p) then Some v else nx c a)
  ∧ (∀ a, pv (store c p (set_next v x)) a = pv c a)
  ∧ (∀ a, mt (store c p (set_next v x)) a = mt c a).
Proof.
  intros H. unfold nx, pv, mt. split_and!; intros a;
    rewrite (load_store c p x) by done; case_decide; subst; try done;
    by rewrite H.
Qed.

Lemma store_prev c p x v :
  load c p = Some x →
  (∀ a, nx (store c p (set_prev v x)) a = nx c a)
  ∧ (∀ a, pv (store c p (set_prev v x)) a =
          if decide (a = p) then Some v else pv c a)
  ∧ (∀ a, mt (store c p (set_prev v x)) a = mt c a).
Proof.
  intros H. unfold nx, pv, mt. split_and!; intros a;
    rewrite (load_store c p x) by done; case_decide; subst; try done;
    by rewrite H.
Qed.

(** A write that leaves the links of the structure alone. *)
Lemma store_meta c p x y :
  load c p = Some x → next y = next x → prev y = prev x →
  (∀ a, nx (store c p y) a = nx c a)
  ∧ (∀ a, pv (store c p y) a = pv c a)
  ∧ (∀ a, mt (store c p y) a =
          if decide (a = p) then Some (meta y) else mt c a).
Proof.
  intros H Hn Hp. unfold nx, pv, mt. split_and!; intros a;
    rewrite (load_store c p x) by done; case_decide; subst; try done;
    rewrite H; simpl; congruence.
Qed.

Lemma path_valid c p l q a :
  path c p l q → a ∈ p :: l ++ [q] → is_Some (load c a).
Proof.
  revert p. induction l as [|x l IH]; intros p; simpl.
  - intros [H1 H2] Ha.
    apply nx_Some in H1 as (?&?&?). apply pv_Some in H2 as (?&?&?).
    set_solver.
  - intros [[H1 H2] H3] Ha. apply elem_of_cons in Ha as [->|Ha].
    + apply nx_Some in H1 as (?&?&?). eauto.
    + by apply (IH x).
Qed.

(** The neighbours of a node of a path. *)
Lemma path_neighbours c p l1 b l2 q :
  path c p (l1 ++ b :: l2) q →
  ∃ pb nb, pv c b = Some pb ∧ nx c b = Some nb
           ∧ pb ∈ p :: l1 ∧ nb ∈ l2 ++ [q].
Proof.
  intros [H1 H2]%path_app.
  assert (∃ pb, pv c b = Some pb ∧ pb ∈ p :: l1) as (pb&?&?).
  { destruct l1 as [|y l1 _] using rev_ind.
    - destruct H1. exists p. set_solver.
    - apply path_snoc in H1 as [_ [_ ?]]. exists y. set_solver. }
  assert (∃ nb, nx c b = Some nb ∧ nb ∈ l2 ++ [q]) as (nb&?&?).
  { destruct l2 as [|z l2].
    - destruct H2. exists q. set_solver.
    - destruct H2 as [[? _] _]. exists z. set_solver. }
  eauto 10.
Qed.

(** The list with [i] moved to its front. *)
Definition move_front (i : nat) (l : list nat) : list nat :=
  i :: filter (λ j, j ≠ i) l.

Lemma filter_ne_fresh (i : nat) (l : list nat) :
  i ∉ l → filter (λ j, j ≠ i) l = l.
Proof.
  induction l as [|x l IH]; [done|]. intros Hi.
  rewrite filter_cons. case_decide; [|set_solver].
  f_equal. apply IH. set_solver.
Qed.

Lemma move_front_split (i : nat) (l1 l2 : list nat) :
  NoDup (l1 ++ i :: l2) → move_front i (l1 ++ i :: l2) = i :: l1 ++ l2.
Proof.
  intros ND. unfold move_front. f_equal.
  apply NoDup_app in ND as (_&N1&N2). apply NoDup_cons in N2 as [N2 _].
  rewrite filter_app, filter_cons. case_decide; [done|].
  rewrite (filter_ne_fresh i l1), (filter_ne_fresh i l2); [done|done|].
  intros ?. apply (N1 i); set_solver.
Qed.

(** The list surgery of [brelse], on its own. *)
Definition brelse_relink (b : ptr) : M unit :=
  x <- rd b;;
  _ <- wr (next x) (set_prev (prev x));;
  x <- rd b;;
  _ <- wr (prev x) (set_next (next x));;
  h <- rd Head;;
  _ <- wr b (set_next (next h));;
  _ <- wr b (set_prev Head);;
  h <- rd Head;;
  _ <- wr (next h) (set_prev b);;
  wr Head (set_next b).

Lemma NoDup_Buf (l : list nat) : NoDup l → NoDup (Head :: (Buf <$> l)).
Proof.
  intros ND. apply NoDup_cons. split.
  - intros (?&?&?)%list_elem_of_fmap. done.
  - apply NoDup_fmap; [|done]. intros ???. congruence.
Qed.

Lemma NoDup_Buf_snoc (l : list nat) : NoDup l → NoDup ((Buf <$> l) ++ [Head]).
Proof.
  intros ND. apply NoDup_app. split_and!.
  - apply NoDup_fmap; [|done]. intros ???. congruence.
  - intros ? (?&?&?)%list_elem_of_fmap. set_solver.
  - apply NoDup_singleton.
Qed.

Lemma frame_NBUF c c' : frame c c' → NBUF c' = NBUF c.
Proof. by intros (?&?&?&?&?&?). Qed.

Lemma relink_run c l i :
  dll c l → (i < NBUF c)%nat →
  ∃ c', brelse_relink (Buf i) c = Ret tt c' ∧ frame c c'
        ∧ (∀ a, mt c' a = mt c a) ∧ dll c' (move_front i l).
Proof.
  intros (ND & Hall & Hpath) Hi. apply Hall in Hi.
  apply list_elem_of_split in Hi as (l1 & l2 & ->).
  rewrite fmap_app, fmap_cons in Hpath.
  destruct (path_neighbours _ _ _ _ _ _ Hpath)
    as (pb & nb & Hpb & Hnb & Hpbin & Hnbin).
  pose proof (NoDup_Buf _ ND) as ND1.
  pose proof (NoDup_Buf_snoc _ ND) as ND2.
  rewrite fmap_app, fmap_cons in ND1, ND2. rewrite <-app_assoc in ND2.
  simpl in ND2.
  set (b := Buf i) in *.
  assert (b ≠ pb) as Hbpb by (intros <-; clear ND2; nodup_solver).
  assert (b ≠ nb) as Hbnb by (intros <-; clear ND1; nodup_solver).
  destruct (nx_Some _ _ _ Hnb) as (xb & Hxb & Hxn).
  destruct (pv_Some _ _ _ Hpb) as (xb' & Hxb' & Hxp).
  assert (xb' = xb) as -> by congruence. clear Hxb'.
  destruct (path_valid c _ _ _ nb Hpath) as [y Hy]; [set_solver|].
  unfold brelse_relink.
  rewrite (bind_rd _ _ _ _ Hxb), Hxn, Hxp, (bind_wr _ _ _ _ _ Hy).
  destruct (store_prev c nb y pb Hy) as (Hn1 & Hp1 & Hm1).
  pose proof (frame_store c nb (set_prev pb y)) as Hf1.
  assert (load (store c nb (set_prev pb y)) b = Some xb) as Hb1.
  { rewrite (load_store _ _ _ _ _ Hy). by case_decide. }
  pose proof (store_is_Some c nb y (set_prev pb y)) as Hv1.
  assert (is_Some (load (store c nb (set_prev pb y)) pb)) as [z Hz].
  { apply (store_is_Some _ _ _ _ _ Hy), (path_valid c _ _ _ pb Hpath).
    set_solver. }
  set (c1 := store c nb (set_prev pb y)) in *. clearbody c1.
  rewrite (bind_rd _ _ _ _ Hb1), Hxn, Hxp, (bind_wr _ _ _ _ _ Hz).
  destruct (store_next c1 pb z nb Hz) as (Hn2 & Hp2 & Hm2).
  pose proof (frame_store c1 pb (set_next nb z)) as Hf2.
  assert (load (store c1 pb (set_next nb z)) b = Some xb) as Hb2.
  { rewrite (load_store _ _ _ _ _ Hz). by case_decide. }
  assert (∀ a, is_Some (load c a) →
               is_Some (load (store c1 pb (set_next nb z)) a)) as Hv2.
  { intros a Ha. by apply (store_is_Some _ _ _ _ _ Hz), Hv1. }
  set (c2 := store c1 pb (set_next nb z)) in *. clearbody c2.
  assert (path c2 Head ((Buf <$> l1) ++ (Buf <$> l2)) Head) as Hpath2.
  { eapply (path_unlink c c2); try done.
    - intros a. by rewrite Hn2, Hn1.
    - intros a. by rewrite Hp2, Hp1. }
  assert (∃ h2, load c2 Head = Some h2) as [h2 Hh2] by (simpl; eauto).
  rewrite (bind_rd _ _ _ _ Hh2).
  assert (nx c2 Head = Some (next h2)) as Hhn by (unfold nx; by rewrite Hh2).
  set (hn := next h2) in *.
  rewrite (bind_wr _ _ _ _ _ Hb2).
  destruct (store_next c2 b xb hn Hb2) as (Hn3 & Hp3 & Hm3).
  pose proof (frame_store c2 b (set_next hn xb)) as Hf3.
  assert (load (store c2 b (set_next hn xb)) b = Some (set_next hn xb)) as Hb3.
  { rewrite (load_store _ _ _ _ _ Hb2). by case_decide. }
  assert (∀ a, load (store c2 b (set_next hn xb)) a =
               if decide (a = b) then Some (set_next hn xb) else load c2 a)
    as Hl3 by (intros a; by rewrite (load_store _ _ _ _ _ Hb2)).
  set (c3 := store c2 b (set_next hn xb)) in *. clearbody c3.
  rewrite (bind_wr _ _ _ _ _ Hb3).
  destruct (store_prev c3 b _ Head Hb3) as (Hn4 & Hp4 & Hm4).
  pose proof (frame_store c3 b (set_prev Head (set_next hn xb))) as Hf4.
  assert (∀ a, load (store c3 b (set_prev Head (set_next hn xb))) a =
               if decide (a = b) then Some (set_prev Head (set_next hn xb))
               else load c2 a) as Hl4.
  { intros a. rewrite (load_store _ _ _ _ _ Hb3), Hl3. by case_decide. }
  set (c4 := store c3 b (set_prev Head (set_next hn xb))) in *. clearbody c4.
  assert (load c4 Head = Some h2) as Hh4.
  { rewrite Hl4. by case_decide. }
  assert (is_Some (load c4 hn)) as [w Hw].
  { rewrite Hl4. case_decide; [eauto|].
    apply (path_valid c2 _ _ _ hn Hpath2).
    destruct (Buf <$> l1) as [|u l1'], (Buf <$> l2) as [|u' l2'];
      simpl in Hpath2; unfold link in Hpath2;
      assert (∀ r, nx c2 Head = Some r → r = hn) as Hr by congruence.
    - destruct Hpath2 as [H1 _]. rewrite <-(Hr _ H1). set_solver.
    - destruct Hpath2 as [[H1 _] _]. rewrite <-(Hr _ H1). set_solver.
    - destruct Hpath2 as [[H1 _] _]. rewrite <-(Hr _ H1). set_solver.
    - destruct Hpath2 as [[H1 _] _]. rewrite <-(Hr _ H1). set_solver. }
  rewrite (bind_rd _ _ _ _ Hh4). fold hn. rewrite (bind_wr _ _ _ _ _ Hw).
  destruct (store_prev c4 hn w b Hw) as (Hn5 & Hp5 & Hm5).
  pose proof (frame_store c4 hn (set_prev b w)) as Hf5.
  set (c5 := store c4 hn (set_prev b w)) in *. clearbody c5.
  assert (load c5 Head = Some (head c5)) as Hh5 by done.
  unfold wr. rewrite Hh5.
  destruct (store_next c5 Head _ b Hh5) as (Hn6 & Hp6 & Hm6).
  pose proof (frame_store c5 Head (set_next b (head c5))) as Hf6.
  set (c6 := store c5 Head (set_next b (head c5))) in *. clearbody c6.
  exists c6. split; [done|].
  assert (frame c c6) as Hf by eauto 10 using frame_trans.
  split; [done|]. split.
  { intros a. by rewrite Hm6, Hm5, Hm4, Hm3, Hm2, Hm1. }
  rewrite (move_front_split i l1 l2 ND).
  assert (NoDup (i :: l1 ++ l2)) as ND' by (by rewrite Permutation_middle).
  split_and!; [done| |].
  - intros j. rewrite (frame_NBUF _ _ Hf), <-Hall.
    by rewrite <-(Permutation_middle l1 l2 i).
  - rewrite fmap_cons, fmap_app. fold b.
    apply (path_push c2 c6 b _ hn); [|exact Hpath2|exact Hhn| |].
    + apply NoDup_Buf in ND'. by rewrite fmap_cons, fmap_app in ND'.
    + intros a. rewrite Hn6, Hn5, Hn4, Hn3. done.
    + intros a. rewrite Hp6, Hp5, Hp4, Hp3. done.
Qed.

(** ** [binit] *)

Definition lock0 : sleeplock := mksleeplock false 0%nat.

(** The hash map after the puts of [binit] for the keys [ks] of the buffers
    from index [i] on. *)
Fixpoint put_keys (i : nat) (ks : list key) (m : gmap key ptr) : gmap key ptr :=
  match ks with
  | [] => m
  | k :: ks' => put_keys (S i) ks' (<[k := Buf i]> m)
  end.

(** One turn of the loop of [binit], followed by [k]. *)
Lemma binit_body_run {B} (k : M B) c l i x :
  path c Head (Buf <$> l) Head → NoDup l → i ∉ l →
  load c (Buf i) = Some x →
  ∃ c',
    (h <- rd Head;;
     _ <- wr (Buf i) (set_next (next h));;
     _ <- wr (Buf i) (set_prev Head);;
     _ <- initsleeplock (Buf i);;
     h <- rd Head;;
     _ <- wr (next h) (set_prev (Buf i));;
     _ <- wr Head (set_next (Buf i));;
     x <- rd (Buf i);;
     _ <- hashmap_put (dev x) (blockno x) (Buf i);;
     k) c = k c'
    ∧ path c' Head (Buf <$> (i :: l)) Head
    ∧ (∀ a, mt c' a = if decide (a = Buf i) then Some (meta (set_lock lock0 x))
                      else mt c a)
    ∧ cache_map c' = <[buf_key x := Buf i]> (cache_map c)
    ∧ spin c' = spin c ∧ cache_size c' = cache_size c ∧ disk c' = disk c
    ∧ io c' = io c ∧ NBUF c' = NBUF c.
Proof.
  intros Hpath ND Hi Hx. set (b := Buf i) in *.
  assert (∃ h, load c Head = Some h) as [h Hh] by (simpl; eauto).
  assert (nx c Head = Some (next h)) as Hhn by (unfold nx; by rewrite Hh).
  set (hn := next h) in *.
  assert (is_Some (load c hn)) as Hvhn.
  { apply (path_valid c _ _ _ hn Hpath).
    destruct (Buf <$> l) as [|u l']; simpl in Hpath; unfold link in Hpath.
    - destruct Hpath as [H1 _]. assert (hn = Head) as -> by congruence.
      set_solver.
    - destruct Hpath as [[H1 _] _]. assert (hn = u) as -> by congruence.
      set_solver. }
  rewrite (bind_rd _ _ _ _ Hh). fold hn. rewrite (bind_wr _ _ _ _ _ Hx).
  destruct (store_next c b x hn Hx) as (Hn1 & Hp1 & Hm1).
  pose proof (frame_store c b (set_next hn x)) as Hf1.
  assert (∀ a, load (store c b (set_next hn x)) a =
               if decide (a = b) then Some (set_next hn x) else load c a)
    as Hl1 by (intros a; by rewrite (load_store _ _ _ _ _ Hx)).
  set (c1 := store c b (set_next hn x)) in *. clearbody c1.
  assert (load c1 b = Some (set_next hn x)) as Hb1.
  { rewrite Hl1. by case_decide. }
  rewrite (bind_wr _ _ _ _ _ Hb1).
  destruct (store_prev c1 b _ Head Hb1) as (Hn2 & Hp2 & Hm2).
  pose proof (frame_store c1 b (set_prev Head (set_next hn x))) as Hf2.
  assert (∀ a, load (store c1 b (set_prev Head (set_next hn x))) a =
               if decide (a = b) then Some (set_prev Head (set_next hn x))
               else load c a) as Hl2.
  { intros a. rewrite (load_store _ _ _ _ _ Hb1), Hl1. by case_decide. }
  set (c2 := store c1 b (set_prev Head (set_next hn x))) in *. clearbody c2.
  assert (load c2 b = Some (set_prev Head (set_next hn x))) as Hb2.
  { rewrite Hl2. by case_decide. }
  unfold initsleeplock. rewrite (bind_wr _ _ _ _ _ Hb2).
  set (x3 := set_lock (mksleeplock false 0) (set_prev Head (set_next hn x))).
  destruct (store_meta c2 b _ x3 Hb2 eq_refl eq_refl) as (Hn3 & Hp3 & Hm3).
  pose proof (frame_store c2 b x3) as Hf3.
  assert (∀ a, load (store c2 b x3) a =
               if decide (a = b) then Some x3 else load c a) as Hl3.
  { intros a. rewrite (load_store _ _ _ _ _ Hb2), Hl2. by case_decide. }
  set (c3 := store c2 b x3) in *. clearbody c3.
  assert (load c3 Head = Some h) as Hh3.
  { rewrite Hl3. by case_decide. }
  assert (is_Some (load c3 hn)) as [w Hw].
  { rewrite Hl3. case_decide; eauto. }
  rewrite (bind_rd _ _ _ _ Hh3). fold hn. rewrite (bind_wr _ _ _ _ _ Hw).
  destruct (store_prev c3 hn w b Hw) as (Hn4 & Hp4 & Hm4).
  pose proof (frame_store c3 hn (set_prev b w)) as Hf4.
  set (c4 := store c3 hn (set_prev b w)) in *. clearbody c4.
  assert (∃ h4, load c4 Head = Some h4) as [h4 Hh4] by (simpl; eauto).
  rewrite (bind_wr _ _ _ _ _ Hh4).
  destruct (store_next c4 Head h4 b Hh4) as (Hn5 & Hp5 & Hm5).
  pose proof (frame_store c4 Head (set_next b h4)) as Hf5.
  set (c5 := store c4 Head (set_next b h4)) in *. clearbody c5.
  assert (mt c5 b = Some (meta (set_lock lock0 x))) as Hmb.
  { rewrite Hm5, Hm4, Hm3. by case_decide. }
  assert (∃ x5, load c5 b = Some x5 ∧ dev x5 = dev x ∧ blockno x5 = blockno x)
    as (x5 & Hx5 & Hd & Hbn).
  { unfold mt in Hmb. destruct (load c5 b) as [x5|]; [|done].
    exists x5. simpl in Hmb. injection Hmb. done. }
  rewrite (bind_rd _ _ _ _ Hx5), Hd, Hbn. unfold hashmap_put.
  rewrite bind_modify.
  assert (frame c c5) as (?&Hmap&?&?&?&?) by eauto 10 using frame_trans.
  eexists. split; [done|]. split_and!; simpl; try done.
  - apply (path_push c _ b _ hn); [|exact Hpath|exact Hhn| |].
    + assert (NoDup (i :: l)) as ND' by (by apply NoDup_cons).
      by apply NoDup_Buf in ND'.
    + intros a. unfold nx. rewrite load_set_cache_map.
      fold (nx c5 a). by rewrite Hn5, Hn4, Hn3, Hn2, Hn1.
    + intros a. unfold pv. rewrite load_set_cache_map.
      fold (pv c5 a). by rewrite Hp5, Hp4, Hp3, Hp2, Hp1.
  - intros a. unfold mt. rewrite load_set_cache_map.
    fold (mt c5 a). rewrite Hm5, Hm4, Hm3, Hm2, Hm1. done.
  - by rewrite Hmap.
Qed.

(** The keys of the buffers of the pool, in pool order. *)
Definition keys (c : bcache) : list key := buf_key <$> bufs c.

Lemma keys_lookup c j : keys c !! j = buf_key <$> mt c (Buf j).
Proof.
  unfold keys, mt. simpl. rewrite list_lookup_fmap.
  by destruct (bufs c !! j).
Qed.

Lemma keys_eq c c' :
  (∀ j, buf_key <$> mt c' (Buf j) = buf_key <$> mt c (Buf j)) →
  keys c' = keys c.
Proof. intros H. apply list_eq. intros j. by rewrite !keys_lookup. Qed.

(** What [binit] does to the link-free contents of the buffers from index
    [i] on: their content locks are initialised. *)
Definition mt_init (c : bcache) (i : nat) (a : ptr) : option buf :=
  match a with
  | Buf j => if decide (i ≤ j)%nat then set_lock lock0 <$> mt c a else mt c a
  | _ => mt c a
  end.

Lemma binit_loop_run n : ∀ i c l,
  (i + n)%nat = NBUF c → NoDup l → (∀ j, j ∈ l ↔ (j < i)%nat) →
  path c Head (Buf <$> l) Head →
  ∃ c', binit_loop n i c = Ret tt c'
    ∧ dll c' (rev (seq i n) ++ l)
    ∧ (∀ a, mt c' a = mt_init c i a)
    ∧ cache_map c' = put_keys i (drop i (keys c)) (cache_map c)
    ∧ spin c' = spin c ∧ cache_size c' = cache_size c ∧ disk c' = disk c
    ∧ io c' = io c ∧ NBUF c' = NBUF c.
Proof.
  induction n as [|n IH]; intros i c l Hlen ND Hall Hpath.
  - exists c. simpl. split; [done|]. split_and!; try done.
    + split_and!; try done. intros j. rewrite Hall. lia.
    + intros [| |j]; simpl; try done. case_decide; [|done].
      unfold mt. simpl. rewrite lookup_ge_None_2; [done|].
      unfold NBUF in Hlen. lia.
    + rewrite drop_ge; [done|]. unfold keys, NBUF in *.
      rewrite length_fmap. lia.
  - assert (is_Some (load c (Buf i))) as [x Hx].
    { simpl. apply lookup_lt_is_Some. unfold NBUF in Hlen. lia. }
    assert (i ∉ l) as Hi by (rewrite Hall; lia).
    simpl binit_loop.
    destruct (binit_body_run (binit_loop n (S i)) c l i x Hpath ND Hi Hx)
      as (c1 & -> & Hpath1 & Hm1 & Hmap1 & Hs1 & Hz1 & Hd1 & Hio1 & Hn1).
    destruct (IH (S i) c1 (i :: l)) as (c' & Hrun & Hdll & Hm & Hmap & Hrest).
    { lia. } { by apply NoDup_cons. }
    { intros j. rewrite elem_of_cons, Hall. lia. } { done. }
    exists c'. split; [done|]. split_and!.
    + replace (rev (seq i (S n)) ++ l) with (rev (seq (S i) n) ++ i :: l);
        [done|]. simpl. by rewrite <-app_assoc.
    + intros a. rewrite Hm. destruct a as [| |j]; simpl; rewrite ?Hm1; try done.
      destruct (decide (j = i)) as [->|Hne].
      * rewrite (decide_False (P := (S i ≤ i)%nat)) by lia.
        rewrite (decide_True (P := Buf i = Buf i)) by done.
        rewrite (decide_True (P := (i ≤ i)%nat)) by lia.
        unfold mt. simpl in *. by rewrite Hx.
      * rewrite !(decide_False (P := Buf j = Buf i)) by congruence.
        repeat case_decide; try lia; done.
    + rewrite Hmap, Hmap1.
      assert (keys c1 = keys c) as ->.
      { apply keys_eq. intros j. rewrite Hm1. case_decide; [|done].
        simplify_eq. unfold mt. by rewrite Hx. }
      assert (keys c !! i = Some (buf_key x)) as Hk.
      { rewrite keys_lookup. unfold mt. by rewrite Hx. }
      by rewrite (drop_S _ _ _ Hk).
    + destruct Hrest as (?&?&?&?&?). congruence.
    + destruct Hrest as (?&?&?&?&?). congruence.
    + destruct Hrest as (?&?&?&?&?). congruence.
    + destruct Hrest as (?&?&?&?&?). congruence.
    + destruct Hrest as (?&?&?&?&?). congruence.
Qed.

(** [binit] from any state of the memory. *)
Lemma binit_run c :
  ∃ c', binit c = Ret tt c'
    ∧ dll c' (rev (seq 0 (NBUF c)))
    ∧ (∀ a, mt c' a = mt_init c 0 a)
    ∧ cache_map c' = put_keys 0 (keys c) ∅
    ∧ spin c' = false ∧ cache_size c' = DEFAULT_NBUF ∧ disk c' = disk c
    ∧ io c' = io c ∧ NBUF c' = NBUF c.
Proof.
  unfold binit, initlock. rewrite bind_modify.
  assert (load (set_spin false c) Head = Some (head c)) as H0 by done.
  rewrite (bind_wr _ _ _ _ _ H0).
  destruct (store_prev _ Head _ Head H0) as (Hn1 & Hp1 & Hm1).
  set (c1 := store (set_spin false c) Head (set_prev Head (head c))) in *.
  assert (load c1 Head = Some (head c1)) as H1 by done.
  rewrite (bind_wr _ _ _ _ _ H1).
  destruct (store_next _ Head _ Head H1) as (Hn2 & Hp2 & Hm2).
  set (c2 := store c1 Head (set_next Head (head c1))) in *.
  rewrite !bind_modify, bind_gets.
  set (c3 := set_size DEFAULT_NBUF (set_cache_map hashmap_create c2)).
  assert (∀ a, load c3 a = load c2 a) as Hl3 by (by intros [| |]).
  destruct (binit_loop_run (NBUF c3) 0 c3 [])
    as (c' & Hrun & Hdll & Hm & Hmap & Hs & Hz & Hd & Hio & Hn);
    [done|constructor|set_solver by lia| |].
  { simpl. unfold link, nx, pv. rewrite !Hl3. fold (nx c2 Head) (pv c2 Head).
    rewrite Hn2, Hp2, Hp1. by repeat case_decide. }
  exists c'. split; [done|]. rewrite app_nil_r in Hdll.
  assert (∀ a, mt c3 a = mt c a) as Hm3.
  { intros a. unfold mt at 1. rewrite Hl3. fold (mt c2 a).
    rewrite Hm2, Hm1. unfold mt. by rewrite load_set_spin. }
  split_and!; try done.
  intros a. rewrite Hm. destruct a as [| |j]; simpl; by rewrite ?Hm3.
Qed.

(** ** [bget] *)

Lemma load_store_eq c p x y : load c p = Some x → load (store c p y) p = Some y.
Proof. intros H. rewrite (load_store _ _ _ _ _ H). by case_decide. Qed.

Lemma store_store c p x y : store (store c p x) p y = store c p y.
Proof.
  destruct p as [| |i]; try done. unfold store, set_bufs. simpl.
  by rewrite list_insert_insert_eq.
Qed.

Lemma acquiresleep_run pid b c x :
  load c b = Some x →
  acquiresleep pid b c =
    if locked (lock x) then Sleep b c
    else Ret tt (store c b (set_lock (mksleeplock true pid) x)).
Proof.
  intros H. unfold acquiresleep. rewrite (bind_rd _ _ _ _ H).
  destruct (locked (lock x)); [done|]. unfold wr. by rewrite H.
Qed.

(** The buffer as [bget] leaves it when it recycles it. *)
Definition recycled (d bn : N) (x : buf) : buf :=
  set_refcnt 1%N (set_valid 0 (set_blockno bn (set_dev d x))).

(** The state at the end of the critical section of a recycling [bget]. *)
Definition recycle_state (d bn : N) (b : ptr) (x : buf) (c : bcache) : bcache :=
  set_spin false
    (set_cache_map (<[(d, bn) := b]> (cache_map c)) (store c b (recycled d bn x))).

Lemma bget_recycle_run pid d bn b x c :
  load c b = Some x →
  bget_recycle pid d bn b c =
    if locked (lock x) then Sleep b (recycle_state d bn b x c)
    else Ret b (store (recycle_state d bn b x c) b
                  (set_lock (mksleeplock true pid) (recycled d bn x))).
Proof.
  intros H. unfold bget_recycle.
  rewrite (bind_wr _ _ _ _ _ H).
  rewrite (bind_wr _ _ _ _ _ (load_store_eq _ _ _ _ H)), store_store.
  rewrite (bind_wr _ _ _ _ _ (load_store_eq _ _ _ _ H)), store_store.
  rewrite (bind_wr _ _ _ _ _ (load_store_eq _ _ _ _ H)), store_store.
  unfold hashmap_put. rewrite bind_modify, bind_release.
  fold (recycled d bn x).
  assert (load (recycle_state d bn b x c) b = Some (recycled d bn x)) as H'.
  { unfold recycle_state. rewrite load_set_spin, load_set_cache_map.
    by apply (load_store_eq _ _ x). }
  unfold bind.
  replace (set_spin false
             (set_cache_map
                (<[(d, bn):=b]> (cache_map (store c b (recycled d bn x))))
                (store c b (recycled d bn x))))
    with (recycle_state d bn b x c) by (by destruct b).
  rewrite (acquiresleep_run _ _ _ _ H'). simpl.
  by destruct (locked (lock x)).
Qed.

(** The reference count of buffer [j] is not zero. *)
Definition busy (c : bcache) (j : nat) : Prop :=
  ∀ x, load c (Buf j) = Some x → refcnt x ≠ 0%N.

(** The scan finds the buffer nearest to the least recently used end of the
    list whose reference count is zero. *)
Lemma bget_scan_found pid d bn c l1 v xv l2 :
  load c (Buf v) = Some xv → refcnt xv = 0%N →
  ∀ q fuel start,
    path c Head ((Buf <$> l1) ++ Buf v :: (Buf <$> l2)) q →
    (∀ j, j ∈ l2 → busy c j) →
    (length l2 < fuel)%nat → pv c q = Some start →
    bget_scan fuel pid d bn start c = bget_recycle pid d bn (Buf v) c.
Proof.
  intros Hv Hz. induction l2 as [|w l2 IH] using rev_ind;
    intros q fuel start Hpath Hbusy Hfuel Hstart.
  - simpl in Hpath. apply path_snoc in Hpath as [_ [_ H2]].
    assert (start = Buf v) as -> by congruence.
    destruct fuel as [|fuel]; [simpl in Hfuel; lia|]. cbn [bget_scan].
    rewrite decide_False by done.
    rewrite (bind_rd _ _ _ _ Hv), Hz. done.
  - rewrite fmap_app in Hpath. simpl in Hpath.
    replace ((Buf <$> l1) ++ Buf v :: (Buf <$> l2) ++ [Buf w])
      with (((Buf <$> l1) ++ Buf v :: (Buf <$> l2)) ++ [Buf w]) in Hpath
      by (by rewrite <-app_assoc).
    apply path_snoc in Hpath as [Hpath [H1 H2]].
    assert (start = Buf w) as -> by congruence.
    destruct (nx_Some _ _ _ H1) as (xw & Hw & _).
    rewrite length_app in Hfuel. simpl in Hfuel.
    destruct fuel as [|fuel]; [lia|]. cbn [bget_scan].
    rewrite decide_False by done.
    rewrite (bind_rd _ _ _ _ Hw).
    assert (refcnt xw ≠ 0%N) as Hne by (apply (Hbusy w); [set_solver|done]).
    apply N.eqb_neq in Hne. rewrite Hne.
    apply (IH (Buf w)); try done.
    + intros j Hj. apply Hbusy. set_solver.
    + lia.
    + unfold pv. by rewrite Hw.
Qed.

(** With every buffer referenced the scan reaches the head and panics. *)
Lemma bget_scan_none pid d bn c l :
  ∀ q fuel start,
    path c Head (Buf <$> l) q →
    (∀ j, j ∈ l → busy c j) →
    (length l ≤ fuel)%nat → pv c q = Some start →
    bget_scan fuel pid d bn start c =
      Panic "bget: no buffers" (set_spin false c).
Proof.
  induction l as [|w l IH] using rev_ind;
    intros q fuel start Hpath Hbusy Hfuel Hstart.
  - destruct Hpath as [_ H2]. assert (start = Head) as -> by congruence.
    by destruct fuel.
  - rewrite fmap_app in Hpath. apply path_snoc in Hpath as [Hpath [H1 H2]].
    assert (start = Buf w) as -> by congruence.
    destruct (nx_Some _ _ _ H1) as (xw & Hw & _).
    rewrite length_app in Hfuel. simpl in Hfuel.
    destruct fuel as [|fuel]; [lia|]. cbn [bget_scan].
    rewrite decide_False by done.
    rewrite (bind_rd _ _ _ _ Hw).
    assert (refcnt xw ≠ 0%N) as Hne by (apply (Hbusy w); [set_solver|done]).
    apply N.eqb_neq in Hne. rewrite Hne.
    apply (IH (Buf w)); try done.
    + intros j Hj. apply Hbusy. set_solver.
    + lia.
    + unfold pv. by rewrite Hw.
Qed.

Lemma dll_length c l : dll c l → length l = NBUF c.
Proof.
  intros (ND & Hall & _).
  transitivity (length (seq 0 (NBUF c))); [|apply length_seq].
  apply Permutation_length.
  apply NoDup_Permutation; [done|apply NoDup_seq|].
  intros j. rewrite Hall, elem_of_seq. lia.
Qed.

Lemma path_load c c' p l q :
  (∀ a, load c' a = load c a) → path c p l q → path c' p l q.
Proof.
  intros H. apply path_frame; intros a _; unfold nx, pv; by rewrite H.
Qed.

Lemma dll_pv_head c l :
  dll c l → ∃ h, load c Head = Some h ∧ pv c Head = Some (prev h).
Proof. intros _. exists (head c). by unfold pv. Qed.

(** The state at the end of the critical section of a [bget] that found
    its block in the hash map. *)
Definition hit_state (b : ptr) (x : buf) (c : bcache) : bcache :=
  set_spin false (store c b (set_refcnt (uint_inc (refcnt x)) x)).

Lemma bget_hit pid d bn c b x :
  spin c = false → cache_map c !! (d, bn) = Some b → b ≠ Null →
  load c b = Some x →
  bget pid d bn c =
    if locked (lock x) then Sleep b (hit_state b x c)
    else Ret b (store (hit_state b x c) b
                  (set_lock (mksleeplock true pid)
                     (set_refcnt (uint_inc (refcnt x)) x))).
Proof.
  intros Hs Hm Hb Hx. unfold bget.
  rewrite (bind_acquire _ _ Hs). unfold hashmap_get. rewrite bind_gets.
  change (cache_map (set_spin true c)) with (cache_map c). rewrite Hm. simpl default. case_decide; [done|].
  assert (load (set_spin true c) b = Some x) as Hx'
    by (by rewrite load_set_spin).
  rewrite (bind_rd _ _ _ _ Hx'), (bind_wr _ _ _ _ _ Hx'), bind_release.
  assert (set_spin false (store (set_spin true c) b
            (set_refcnt (uint_inc (refcnt x)) x)) = hit_state b x c) as ->
    by (by destruct b).
  assert (load (hit_state b x c) b = Some (set_refcnt (uint_inc (refcnt x)) x))
    as H'.
  { unfold hit_state. rewrite load_set_spin. by apply (load_store_eq _ _ x). }
  unfold bind. rewrite (acquiresleep_run _ _ _ _ H'). simpl.
  by destruct (locked (lock x)).
Qed.

Lemma set_spin_id c : spin c = false → set_spin false (set_spin true c) = c.
Proof. destruct c. simpl. by intros ->. Qed.

Lemma bget_miss_found pid d bn c l1 v xv l2 :
  spin c = false → default Null (cache_map c !! (d, bn)) = Null →
  dll c (l1 ++ v :: l2) →
  load c (Buf v) = Some xv → refcnt xv = 0%N → (∀ j, j ∈ l2 → busy c j) →
  bget pid d bn c =
    if locked (lock xv) then Sleep (Buf v) (recycle_state d bn (Buf v) xv c)
    else Ret (Buf v) (store (recycle_state d bn (Buf v) xv c) (Buf v)
                        (set_lock (mksleeplock true pid) (recycled d bn xv))).
Proof.
  intros Hs Hm Hdll Hv Hz Hbusy. unfold bget.
  rewrite (bind_acquire _ _ Hs). unfold hashmap_get. rewrite bind_gets.
  change (cache_map (set_spin true c)) with (cache_map c). rewrite Hm. case_decide; [|done].
  assert (load (set_spin true c) Head = Some (head c)) as Hh by done.
  rewrite (bind_rd _ _ _ _ Hh), bind_gets.
  pose proof (dll_length _ _ Hdll) as Hlen.
  destruct Hdll as (ND & Hall & Hpath).
  rewrite fmap_app, fmap_cons in Hpath.
  rewrite (bget_scan_found pid d bn (set_spin true c) l1 v xv l2 Hv Hz Head);
    try done.
  - rewrite (bget_recycle_run _ _ _ _ xv) by done.
    assert (recycle_state d bn (Buf v) xv (set_spin true c)
            = recycle_state d bn (Buf v) xv c) as -> by done.
    done.
  - by apply (path_load c).
  - rewrite length_app in Hlen. simpl in Hlen.
    change (NBUF (set_spin true c)) with (NBUF c). lia.
Qed.

Lemma bget_miss_none pid d bn c l :
  spin c = false → default Null (cache_map c !! (d, bn)) = Null →
  dll c l → (∀ j, j ∈ l → busy c j) →
  bget pid d bn c = Panic "bget: no buffers" c.
Proof.
  intros Hs Hm Hdll Hbusy. unfold bget.
  rewrite (bind_acquire _ _ Hs). unfold hashmap_get. rewrite bind_gets.
  change (cache_map (set_spin true c)) with (cache_map c). rewrite Hm. case_decide; [|done].
  assert (load (set_spin true c) Head = Some (head c)) as Hh by done.
  rewrite (bind_rd _ _ _ _ Hh), bind_gets.
  pose proof (dll_length _ _ Hdll) as Hlen.
  destruct Hdll as (ND & Hall & Hpath).
  rewrite (bget_scan_none pid d bn (set_spin true c) l Head); try done.
  - by rewrite set_spin_id.
  - by apply (path_load c).
  - change (NBUF (set_spin true c)) with (NBUF c). lia.
Qed.

(** ** [brelse], [bwrite], [bpin], [bunpin], [set_cache_size], [bread] *)

Lemma dll_frame c c' l :
  (∀ a, nx c' a = nx c a) → (∀ a, pv c' a = pv c a) → NBUF c' = NBUF c →
  dll c l → dll c' l.
Proof.
  intros Hn Hp HN (ND & Hall & Hpath). split_and!; [done| |].
  - intros j. by rewrite HN.
  - apply (path_frame c); auto.
Qed.

Lemma holdingsleep_run {B} pid b (k : bool → M B) c x :
  load c b = Some x → (h <- holdingsleep pid b;; k h) c = k (holding pid x) c.
Proof.
  intros H. unfold holdingsleep. rewrite bind_assoc, (bind_rd _ _ _ _ H).
  done.
Qed.

(** The buffer as [brelse] leaves it: the content lock released, one
    reference less. *)
Definition released (x : buf) : buf :=
  set_refcnt (uint_dec (refcnt x)) (set_lock lock0 x).

Lemma brelse_run pid i x c l :
  spin c = false → load c (Buf i) = Some x → holding pid x = true →
  dll c l →
  ∃ c', brelse pid (Buf i) c = Ret tt c' ∧ frame c c'
    ∧ (∀ a, mt c' a = if decide (a = Buf i) then Some (meta (released x))
                      else mt c a)
    ∧ dll c' (if (refcnt (released x) =? 0)%N then move_front i l else l).
Proof.
  intros Hs Hx Hh Hdll. unfold brelse.
  rewrite (holdingsleep_run _ _ _ _ _ Hx), Hh. simpl negb. cbv iota.
  rewrite bind_ret. unfold releasesleep. rewrite (bind_wr _ _ _ _ _ Hx).
  fold lock0.
  set (c1 := store c (Buf i) (set_lock lock0 x)).
  assert (spin c1 = false) as Hs1 by done.
  rewrite (bind_acquire _ _ Hs1).
  assert (load (set_spin true c1) (Buf i) = Some (set_lock lock0 x)) as H2.
  { rewrite load_set_spin. by apply (load_store_eq _ _ x). }
  rewrite (bind_rd _ _ _ _ H2), (bind_wr _ _ _ _ _ H2).
  change (set_refcnt _ (set_lock lock0 x)) with (released x).
  assert (store (set_spin true c1) (Buf i) (released x)
          = set_spin true (store c (Buf i) (released x))) as ->.
  { unfold c1, store, set_bufs, set_spin. simpl.
    by rewrite list_insert_insert_eq. }
  clear c1 Hs1 H2.
  destruct (store_meta c (Buf i) x (released x) Hx eq_refl eq_refl)
    as (Hn3 & Hp3 & Hm3).
  pose proof (frame_store c (Buf i) (released x)) as Hf3.
  pose proof (load_store_eq c (Buf i) x (released x) Hx) as H3.
  set (c3 := store c (Buf i) (released x)) in *. clearbody c3.
  assert (load (set_spin true c3) (Buf i) = Some (released x)) as H3' by done.
  rewrite (bind_rd _ _ _ _ H3').
  assert (dll (set_spin true c3) l) as Hdll3.
  { apply (dll_frame c);
      [exact Hn3|exact Hp3|exact (frame_NBUF _ _ Hf3)|done]. }
  destruct (refcnt (released x) =? 0)%N.
  - destruct (relink_run _ l i Hdll3) as (c4 & Hrun & Hf4 & Hm4 & Hdll4).
    { change (NBUF (set_spin true c3)) with (NBUF c3).
      rewrite (frame_NBUF _ _ Hf3). simpl in Hx.
      by apply lookup_lt_Some in Hx. }
    exists (set_spin false c4). split.
    { change (bind (brelse_relink (Buf i)) (λ _, release) (set_spin true c3)
              = Ret tt (set_spin false c4)).
      unfold bind. by rewrite Hrun. }
    split.
    { destruct Hf3 as (?&?&?&?&?&?), Hf4 as (?&?&?&?&?&?).
      unfold frame, NBUF in *. simpl in *. split_and!; congruence. }
    split.
    + intros a. change (mt (set_spin false c4) a) with (mt c4 a).
      rewrite Hm4. change (mt (set_spin true c3) a) with (mt c3 a).
      by rewrite Hm3.
    + by apply (dll_frame c4).
  - rewrite bind_ret. exists (set_spin false (set_spin true c3)). split; [done|].
    split.
    { destruct Hf3 as (?&?&?&?&?&?).
      unfold frame, NBUF in *. simpl in *. split_and!; congruence. }
    split; [exact Hm3|].
    by apply (dll_frame (set_spin true c3)).
Qed.

Lemma brelse_panic pid b x c :
  load c b = Some x → holding pid x = false →
  brelse pid b c = Panic "brelse" c.
Proof.
  intros Hx Hh. unfold brelse.
  by rewrite (holdingsleep_run _ _ _ _ _ Hx), Hh.
Qed.

(** The state after the transfer of the payload of [x] to the device. *)
Definition written (x : buf) (c : bcache) : bcache :=
  set_io (IoWrite (buf_key x) (data x) :: io c)
    (set_disk (<[buf_key x := data x]> (disk c)) c).

Lemma bwrite_run pid b x c :
  load c b = Some x → holding pid x = true →
  bwrite pid b c = Ret tt (written x c).
Proof.
  intros Hx Hh. unfold bwrite.
  rewrite (holdingsleep_run _ _ _ _ _ Hx), Hh. simpl negb. cbv iota.
  rewrite bind_ret. unfold virtio_disk_rw. by rewrite (bind_rd _ _ _ _ Hx).
Qed.

Lemma bwrite_panic pid b x c :
  load c b = Some x → holding pid x = false →
  bwrite pid b c = Panic "bwrite" c.
Proof.
  intros Hx Hh. unfold bwrite.
  by rewrite (holdingsleep_run _ _ _ _ _ Hx), Hh.
Qed.

Lemma bpin_run b x c :
  spin c = false → load c b = Some x →
  bpin b c = Ret tt (hit_state b x c).
Proof.
  intros Hs Hx. unfold bpin. rewrite (bind_acquire _ _ Hs).
  assert (load (set_spin true c) b = Some x) as Hx'
    by (by rewrite load_set_spin).
  rewrite (bind_rd _ _ _ _ Hx'), (bind_wr _ _ _ _ _ Hx').
  unfold release, modify, hit_state. by destruct b.
Qed.

(** The state [bunpin] leaves. *)
Definition unpinned (b : ptr) (x : buf) (c : bcache) : bcache :=
  set_spin false (store c b (set_refcnt (uint_dec (refcnt x)) x)).

Lemma bunpin_run b x c :
  spin c = false → load c b = Some x →
  bunpin b c =
    if (refcnt x =? 0)%N then
      Panic "bunpin: refcnt already zero" (set_spin true c)
    else Ret tt (unpinned b x c).
Proof.
  intros Hs Hx. unfold bunpin. rewrite (bind_acquire _ _ Hs).
  assert (load (set_spin true c) b = Some x) as Hx'
    by (by rewrite load_set_spin).
  rewrite (bind_rd _ _ _ _ Hx').
  assert ((refcnt x <=? 0)%N = (refcnt x =? 0)%N) as ->.
  { destruct (N.eqb_spec (refcnt x) 0) as [->|Hne]; [done|].
    apply N.leb_gt. lia. }
  destruct (refcnt x =? 0)%N; [done|].
  rewrite bind_ret, (bind_rd _ _ _ _ Hx'), (bind_wr _ _ _ _ _ Hx').
  unfold release, modify, unpinned. by destruct b.
Qed.

Lemma set_cache_size_run size c :
  spin c = false → set_cache_size size c = Ret tt (set_size size c).
Proof.
  intros Hs. unfold set_cache_size. rewrite (bind_acquire _ _ Hs).
  rewrite bind_modify. unfold release, modify. f_equal.
  destruct c. simpl in *. by subst.
Qed.

(** The state after the transfer of the block of [x] from the device into
    the buffer [b]. *)
Definition filled (b : ptr) (x : buf) (c : bcache) : bcache :=
  set_io (IoRead (buf_key x) :: io c)
    (store c b (set_valid 1 (set_data (default [] (disk c !! buf_key x)) x))).

Lemma bread_fill_run b x c :
  load c b = Some x →
  bread_fill b c = if valid x =? 0 then Ret b (filled b x c) else Ret b c.
Proof.
  intros Hx. unfold bread_fill. rewrite (bind_rd _ _ _ _ Hx).
  destruct (valid x =? 0); [|done].
  unfold virtio_disk_rw.
  rewrite ?bind_assoc, (bind_rd _ _ _ _ Hx). simpl.
  rewrite ?bind_assoc, bind_gets, ?bind_assoc, (bind_wr _ _ _ _ _ Hx).
  rewrite ?bind_assoc, bind_modify.
  set (y := set_data _ x).
  assert (load (set_io (IoRead (buf_key x) :: io (store c b y)) (store c b y)) b
          = Some y) as Hy.
  { rewrite load_set_io. by apply (load_store_eq _ _ x). }
  rewrite (bind_wr _ _ _ _ _ Hy). unfold ret, filled. f_equal.
  fold y. destruct b as [| |j]; try done.
  unfold store, set_io, set_bufs. simpl. by rewrite list_insert_insert_eq.
Qed.

(** ** The hash map [binit] builds *)

Lemma put_keys_lookup ks : ∀ i m k p,
  put_keys i ks m !! k = Some p ↔
    (∃ j, p = Buf (i + j) ∧ ks !! j = Some k
          ∧ ∀ j', ks !! j' = Some k → (j' ≤ j)%nat)
    ∨ ((k ∉ ks) ∧ m !! k = Some p).
Proof.
  induction ks as [|k0 ks IH]; intros i m k p; simpl.
  - split; [intros H; right; split; [set_solver|done]|].
    intros [(j & _ & H & _)|[_ H]]; done.
  - rewrite IH. split.
    + intros [(j & -> & Hj & Hmax)|[Hk Hm]].
      * left. exists (S j). split; [f_equal; lia|]. split; [done|].
        intros [|j'] Hj'; [lia|]. apply Hmax in Hj'. lia.
      * destruct (decide (k0 = k)) as [->|Hne].
        -- rewrite lookup_insert_eq in Hm. injection Hm as <-.
           left. exists 0%nat. split; [f_equal; lia|]. split; [done|].
           intros [|j'] Hj'; [lia|]. simpl in Hj'.
           apply list_elem_of_lookup_2 in Hj'. done.
        -- rewrite lookup_insert_ne in Hm by done. right.
           split; [set_solver|done].
    + intros [(j & -> & Hj & Hmax)|[Hk Hm]].
      * destruct j as [|j].
        -- simpl in Hj. injection Hj as ->. right. split.
           ++ intros [j' Hj']%list_elem_of_lookup_1.
              specialize (Hmax (S j') Hj'). lia.
           ++ rewrite lookup_insert_eq. f_equal. f_equal. lia.
        -- left. exists j. split; [f_equal; lia|]. split; [done|].
           intros j' Hj'. specialize (Hmax (S j') Hj'). lia.
      * right. split; [set_solver|].
        rewrite lookup_insert_ne; [done|]. set_solver.
Qed.

Lemma put_keys_replicate n k0 : ∀ i m,
  put_keys i (replicate (S n) k0) m = <[k0 := Buf (i + n)]> m.
Proof.
  induction n as [|n IH]; intros i m.
  - simpl. do 2 f_equal. lia.
  - change (put_keys i (replicate (S (S n)) k0) m)
      with (put_keys (S i) (replicate (S n) k0) (<[k0 := Buf i]> m)).
    rewrite IH, insert_insert_eq. do 2 f_equal. lia.
Qed.

Lemma keys_boot n d : keys (boot n d) = replicate n (0%N, 0%N).
Proof. unfold keys. simpl. by rewrite fmap_replicate. Qed.

(** ** Runs of the buffer cache *)

(** The calls a client makes. The buffer a client passes is one an earlier
    [bget] or [bread] gave it: [bcache] is private to bio.c. A caller put to
    sleep in [bget] goes on when it is woken up ([Wakeup], and [WakeupRead]
    inside [bread]). *)
Inductive op : Type :=
  | Binit
  | Bget (pid : nat) (d bn : N)
  | Bread (pid : nat) (d bn : N)
  | Bwrite (pid : nat) (b : ptr)
  | Brelse (pid : nat) (b : ptr)
  | Bpin (b : ptr)
  | Bunpin (b : ptr)
  | SetCacheSize (size : Z)
  | Wakeup (pid : nat) (b : ptr)
  | WakeupRead (pid : nat) (b : ptr).

Definition exec (o : op) : M (option ptr) :=
  match o with
  | Binit => _ <- binit;; ret None
  | Bget pid d bn => b <- bget pid d bn;; ret (Some b)
  | Bread pid d bn => b <- bread pid d bn;; ret (Some b)
  | Bwrite pid b => _ <- bwrite pid b;; ret None
  | Brelse pid b => _ <- brelse pid b;; ret None
  | Bpin b => _ <- bpin b;; ret None
  | Bunpin b => _ <- bunpin b;; ret None
  | SetCacheSize size => _ <- set_cache_size size;; ret None
  | Wakeup pid b => _ <- acquiresleep pid b;; ret (Some b)
  | WakeupRead pid b => _ <- acquiresleep pid b;; b' <- bread_fill b;; ret (Some b')
  end.

(** The buffer a call is given. *)
Definition op_arg (o : op) : option ptr :=
  match o with
  | Bwrite _ b | Brelse _ b | Bpin b | Bunpin b | Wakeup _ b | WakeupRead _ b =>
      Some b
  | _ => None
  end.

(** The call is given a buffer among [hs], those handed out so far. *)
Definition args_ok (hs : list ptr) (o : op) : Prop :=
  ∀ b, op_arg o = Some b → b ∈ hs.

(** The states of a running kernel, with the buffers handed out so far:
    [binit] runs at boot, then calls return or put their caller to sleep. *)
Inductive running : list ptr → bcache → Prop :=
  | run_boot n d c :
      binit (boot n d) = Ret tt c → running [] c
  | run_ret hs c o r c' :
      running hs c → args_ok hs o → exec o c = Ret r c' →
      running (option_list r ++ hs) c'
  | run_sleep hs c o b c' :
      running hs c → args_ok hs o → exec o c = Sleep b c' →
      running (b :: hs) c'.

(** The reachable states: those of a running kernel, and those in which a
    call has panicked. *)
Definition reachable (c : bcache) : Prop :=
  ∃ hs c0, running hs c0
    ∧ (c = c0 ∨ ∃ o msg, args_ok hs o ∧ exec o c0 = Panic msg c).

(** ** The invariant of the running kernel *)

Definition in_index (c : bcache) (p : ptr) : Prop :=
  ∃ k, cache_map c !! k = Some p.

Record Inv (hs : list ptr) (c : bcache) : Prop := mkInv {
  inv_spin : spin c = false;
  inv_dll : ∃ l, dll c l;
  inv_keys : ∀ i x, mt c (Buf i) = Some x → is_Some (cache_map c !! buf_key x);
  inv_index : ∀ k p, cache_map c !! k = Some p →
    ∃ i x, p = Buf i ∧ mt c (Buf i) = Some x
           ∧ ∀ j y, mt c (Buf j) = Some y → buf_key y = buf_key x → (j ≤ i)%nat;
  inv_live : ∀ i x, mt c (Buf i) = Some x →
    refcnt x ≠ 0%N ∨ locked (lock x) = true → in_index c (Buf i);
  inv_handles : ∀ b, b ∈ hs → in_index c b
}.

Lemma mt_update c c' i y :
  (∀ a, mt c' a = if decide (a = Buf i) then Some y else mt c a) →
  mt c' (Buf i) = Some y ∧ ∀ j, j ≠ i → mt c' (Buf j) = mt c (Buf j).
Proof.
  intros Hm. split.
  - rewrite Hm. by rewrite decide_True.
  - intros j Hj. rewrite Hm. rewrite decide_False; [done|congruence].
Qed.

(** A step that changes one indexed buffer and keeps its key. *)
Lemma Inv_same_key hs hs' c c' i x y :
  Inv hs c → mt c (Buf i) = Some x → in_index c (Buf i) →
  (∀ a, mt c' a = if decide (a = Buf i) then Some y else mt c a) →
  buf_key y = buf_key x → cache_map c' = cache_map c →
  (∃ l, dll c' l) → spin c' = false →
  (∀ b, b ∈ hs' → b ∈ hs ∨ b = Buf i) →
  Inv hs' c'.
Proof.
  intros [Hs Hd Hk Hi Hl Hh] Hx Hin [Hmi Hmo]%mt_update Hkey Hmap Hd' Hs' Hhs.
  assert (∀ j z, mt c' (Buf j) = Some z →
            ∃ z0, mt c (Buf j) = Some z0 ∧ buf_key z0 = buf_key z) as Hold.
  { intros j z. destruct (decide (j = i)) as [->|Hne].
    - rewrite Hmi. intros [= <-]. eauto.
    - rewrite (Hmo j Hne). eauto. }
  split; try done.
  - intros j z (z0 & Hz0 & <-)%Hold. rewrite Hmap. eauto.
  - intros k p. rewrite Hmap. intros (i0 & x0 & -> & Hx0 & Hmax)%Hi.
    destruct (decide (i0 = i)) as [->|Hne].
    + exists i, y. split_and!; try done.
      assert (x0 = x) as -> by congruence.
      intros j z (z0 & Hz0 & <-)%Hold E. apply (Hmax j z0 Hz0). congruence.
    + exists i0, x0. split_and!; try done; [by rewrite (Hmo i0 Hne)|].
      intros j z (z0 & Hz0 & <-)%Hold E. by apply (Hmax j z0 Hz0).
  - intros j z. unfold in_index. rewrite Hmap.
    destruct (decide (j = i)) as [->|Hne]; [done|].
    rewrite (Hmo j Hne). apply Hl.
  - intros b [Hb| ->]%Hhs; unfold in_index; rewrite Hmap; [by apply Hh|done].
Qed.

(** A step that recycles a buffer for a key the index does not have. *)
Lemma Inv_recycle hs hs' c c' v x y d bn :
  Inv hs c → mt c (Buf v) = Some x → cache_map c !! (d, bn) = None →
  (∀ a, mt c' a = if decide (a = Buf v) then Some y else mt c a) →
  buf_key y = (d, bn) →
  cache_map c' = <[(d, bn) := Buf v]> (cache_map c) →
  (∃ l, dll c' l) → spin c' = false →
  (∀ b, b ∈ hs' → b ∈ hs ∨ b = Buf v) →
  Inv hs' c'.
Proof.
  intros [Hs Hd Hk Hi Hl Hh] Hx Hnone [Hmi Hmo]%mt_update Hkey Hmap Hd' Hs' Hhs.
  assert (∀ j z, mt c (Buf j) = Some z → buf_key z ≠ (d, bn)) as Hfresh.
  { intros j z Hz E. apply Hk in Hz. rewrite E, Hnone in Hz.
    by destruct Hz. }
  assert (∀ j z, mt c' (Buf j) = Some z → buf_key z = (d, bn) → j = v)
    as Honly.
  { intros j z Hz Ez. destruct (decide (j = v)) as [|Hne]; [done|].
    rewrite (Hmo j Hne) in Hz. by destruct (Hfresh _ _ Hz). }
  assert (∀ p, in_index c p → in_index c' p) as Hmono.
  { intros p [k Hp]. exists k. rewrite Hmap, lookup_insert_ne; [done|].
    intros <-. congruence. }
  assert (in_index c' (Buf v)) as Hv.
  { exists (d, bn). by rewrite Hmap, lookup_insert_eq. }
  split; try done.
  - intros j z Hz. rewrite Hmap.
    destruct (decide (buf_key z = (d, bn))) as [->|Hne].
    + rewrite lookup_insert_eq. eauto.
    + rewrite lookup_insert_ne by done.
      destruct (decide (j = v)) as [->|Hnv]; [congruence|].
      rewrite (Hmo j Hnv) in Hz. eauto.
  - intros k p. rewrite Hmap.
    destruct (decide (k = (d, bn))) as [->|Hne].
    + rewrite lookup_insert_eq. intros [= <-]. exists v, y.
      split_and!; try done. intros j z Hz Ez. rewrite Hkey in Ez.
      by rewrite (Honly _ _ Hz Ez).
    + rewrite lookup_insert_ne by done.
      intros (i0 & x0 & -> & Hx0 & Hmax)%Hi.
      destruct (decide (i0 = v)) as [->|Hne0].
      * exists v, y. split_and!; try done. intros j z Hz Ez.
        rewrite Hkey in Ez. by rewrite (Honly _ _ Hz Ez).
      * exists i0, x0. split; [done|]. split; [by rewrite (Hmo i0 Hne0)|].
        intros j z Hz Ez. destruct (decide (j = v)) as [->|Hnv].
        -- destruct (Hfresh _ _ Hx0). congruence.
        -- rewrite (Hmo j Hnv) in Hz. by apply (Hmax j z).
  - intros j z Hz Hact. destruct (decide (j = v)) as [->|Hnv]; [done|].
    rewrite (Hmo j Hnv) in Hz. eauto.
  - intros b [Hb| ->]%Hhs; eauto.
Qed.

(** The end of [bget]: the caller takes the content lock of [b], whose
    contents are [y], or sleeps until it is free. *)
Definition lock_or_sleep (pid : nat) (b : ptr) (y : buf) (c : bcache)
  : outcome ptr :=
  if locked (lock y) then Sleep b c
  else Ret b (store c b (set_lock (mksleeplock true pid) y)).

(** The buffer with one more reference. *)
Definition pinned (x : buf) : buf := set_refcnt (uint_inc (refcnt x)) x.

Lemma scan_split c l :
  (∀ j, j ∈ l → is_Some (load c (Buf j))) →
  (∀ j, j ∈ l → busy c j)
  ∨ ∃ l1 v xv l2, l = l1 ++ v :: l2 ∧ load c (Buf v) = Some xv
      ∧ refcnt xv = 0%N ∧ ∀ j, j ∈ l2 → busy c j.
Proof.
  induction l as [|a l IH]; intros Hv.
  - left. set_solver.
  - destruct IH as [Hb|(l1 & v & xv & l2 & -> & ? & ? & ?)].
    + intros j Hj. apply Hv. set_solver.
    + destruct (Hv a) as [xa Ha]; [set_solver|].
      destruct (decide (refcnt xa = 0%N)) as [Hz|Hnz].
      * right. exists [], a, xa, l. done.
      * left. intros j [->|Hj]%elem_of_cons; [|by apply Hb].
        intros x Hx. congruence.
    + right. exists (a :: l1), v, xv, l2. done.
Qed.

Lemma dll_valid c l j : dll c l → j ∈ l → is_Some (load c (Buf j)).
Proof.
  intros (_ & Hall & _) Hj. apply Hall in Hj. simpl.
  by apply lookup_lt_is_Some.
Qed.

(** The three ways of [bget]: the block is in the hash map; it is not and a
    buffer is free; it is not and none is. *)
Lemma bget_cases pid d bn c l :
  spin c = false → dll c l →
  (∀ k p, cache_map c !! k = Some p → p ≠ Null ∧ is_Some (load c p)) →
  (∃ b x, cache_map c !! (d, bn) = Some b ∧ load c b = Some x
      ∧ bget pid d bn c = lock_or_sleep pid b (pinned x) (hit_state b x c))
  ∨ (cache_map c !! (d, bn) = None
      ∧ ∃ l1 v xv l2, l = l1 ++ v :: l2 ∧ load c (Buf v) = Some xv
          ∧ refcnt xv = 0%N ∧ (∀ j, j ∈ l2 → busy c j)
          ∧ bget pid d bn c =
              lock_or_sleep pid (Buf v) (recycled d bn xv)
                (recycle_state d bn (Buf v) xv c))
  ∨ (cache_map c !! (d, bn) = None ∧ (∀ j, j ∈ l → busy c j)
      ∧ bget pid d bn c = Panic "bget: no buffers" c).
Proof.
  intros Hs Hdll Hidx.
  destruct (cache_map c !! (d, bn)) as [b|] eqn:Hm.
  - left. destruct (Hidx _ _ Hm) as [Hb [x Hx]]. exists b, x.
    split_and!; try done. unfold lock_or_sleep, pinned. simpl.
    by apply bget_hit.
  - right. destruct (scan_split c l) as [Hb|(l1 & v & xv & l2 & -> & ? & ? & ?)].
    + intros j Hj. by apply (dll_valid c l).
    + right. split_and!; try done. apply (bget_miss_none _ _ _ _ l); try done.
      by rewrite Hm.
    + left. split; [done|]. exists l1, v, xv, l2. split_and!; try done.
      unfold lock_or_sleep. simpl.
      apply (bget_miss_found _ _ _ _ l1 v xv l2); try done. by rewrite Hm.
Qed.

(** States that agree on every structure agree on the views. *)
Lemma views_load c c' :
  (∀ a, load c' a = load c a) →
  (∀ a, nx c' a = nx c a) ∧ (∀ a, pv c' a = pv c a) ∧ (∀ a, mt c' a = mt c a).
Proof. intros H. unfold nx, pv, mt. split_and!; intros a; by rewrite H. Qed.

Lemma NBUF_load c c' : (∀ a, load c' a = load c a) → NBUF c' = NBUF c.
Proof.
  intros H. unfold NBUF.
  destruct (decide (length (bufs c') = length (bufs c))) as [|Hne]; [done|].
  exfalso.
  destruct (decide (length (bufs c') < length (bufs c))%nat).
  - pose proof (H (Buf (length (bufs c')))) as E. simpl in E.
    rewrite (lookup_ge_None_2 (bufs c')) in E by lia.
    symmetry in E. apply lookup_ge_None in E. lia.
  - pose proof (H (Buf (length (bufs c)))) as E. simpl in E.
    rewrite (lookup_ge_None_2 (bufs c)) in E by lia.
    apply lookup_ge_None in E. lia.
Qed.

Lemma Inv_store_meta hs hs' c c' i x y :
  Inv hs c → load c (Buf i) = Some x → in_index c (Buf i) →
  next y = next x → prev y = prev x → buf_key y = buf_key x →
  (∀ a, load c' a = load (store c (Buf i) y) a) →
  cache_map c' = cache_map c → spin c' = false →
  (∀ b, b ∈ hs' → b ∈ hs ∨ b = Buf i) →
  Inv hs' c'.
Proof.
  intros HI Hx Hin Hn Hp Hk Hl Hmap Hs Hhs.
  destruct (views_load _ _ Hl) as (Vn & Vp & Vm).
  destruct (store_meta c (Buf i) x y Hx Hn Hp) as (Sn & Sp & Sm).
  apply (Inv_same_key hs hs' c c' i (meta x) (meta y)); try done.
  - unfold mt. by rewrite Hx.
  - intros a. by rewrite Vm, Sm.
  - destruct (inv_dll _ _ HI) as [l Hdll]. exists l.
    apply (dll_frame c); [| | |done].
    + intros a. by rewrite Vn, Sn.
    + intros a. by rewrite Vp, Sp.
    + rewrite (NBUF_load _ _ Hl). apply frame_NBUF, frame_store.
Qed.

Lemma Inv_store_recycle hs hs' c c' v x y d bn :
  Inv hs c → load c (Buf v) = Some x → cache_map c !! (d, bn) = None →
  next y = next x → prev y = prev x → buf_key y = (d, bn) →
  (∀ a, load c' a = load (store c (Buf v) y) a) →
  cache_map c' = <[(d, bn) := Buf v]> (cache_map c) → spin c' = false →
  (∀ b, b ∈ hs' → b ∈ hs ∨ b = Buf v) →
  Inv hs' c'.
Proof.
  intros HI Hx Hnone Hn Hp Hk Hl Hmap Hs Hhs.
  destruct (views_load _ _ Hl) as (Vn & Vp & Vm).
  destruct (store_meta c (Buf v) x y Hx Hn Hp) as (Sn & Sp & Sm).
  apply (Inv_recycle hs hs' c c' v (meta x) (meta y) d bn); try done.
  - unfold mt. by rewrite Hx.
  - intros a. by rewrite Vm, Sm.
  - destruct (inv_dll _ _ HI) as [l Hdll]. exists l.
    apply (dll_frame c); [| | |done].
    + intros a. by rewrite Vn, Sn.
    + intros a. by rewrite Vp, Sp.
    + rewrite (NBUF_load _ _ Hl). apply frame_NBUF, frame_store.
Qed.

Lemma Inv_frame hs hs' c c' :
  Inv hs c → (∀ a, load c' a = load c a) →
  cache_map c' = cache_map c → spin c' = false →
  (∀ b, b ∈ hs' → b ∈ hs) →
  Inv hs' c'.
Proof.
  intros [Hs Hd Hk Hi Hl Hh] Hload Hmap Hs' Hhs.
  destruct (views_load _ _ Hload) as (Vn & Vp & Vm).
  split; try done.
  - destruct Hd as [l Hdll]. exists l.
    apply (dll_frame c); try done. by apply NBUF_load.
  - intros i x. rewrite Vm, Hmap. apply Hk.
  - intros k p. rewrite Hmap. intros (i & x & ? & ? & Hmax)%Hi.
    exists i, x. rewrite Vm. split_and!; try done.
    intros j y. rewrite Vm. apply Hmax.
  - intros i x. rewrite Vm. unfold in_index. rewrite Hmap. apply Hl.
  - intros b Hb%Hhs. unfold in_index. rewrite Hmap. by apply Hh.
Qed.

(** A buffer of the index is a buffer of the pool. *)
Lemma Inv_index_load hs c p :
  Inv hs c → in_index c p → ∃ i x, p = Buf i ∧ load c (Buf i) = Some x.
Proof.
  intros HI [k Hk]. destruct (inv_index _ _ HI _ _ Hk) as (i & x & -> & Hx & _).
  unfold mt in Hx. destruct (load c (Buf i)) as [x'|] eqn:E; [|done]. eauto.
Qed.

Lemma put_keys_is_Some ks : ∀ i m k, k ∈ ks → is_Some (put_keys i ks m !! k).
Proof.
  induction ks as [|k0 ks IH]; intros i m k Hk; [set_solver|]. simpl.
  destruct (decide (k ∈ ks)) as [Hin|Hnin]; [by apply IH|].
  assert (k = k0) as -> by set_solver. exists (Buf i).
  apply put_keys_lookup. right. by rewrite lookup_insert_eq.
Qed.

(** Buffer [i] is the last of the pool that carries its key. *)
Definition last_of_key (c : bcache) (i : nat) : Prop :=
  ∃ x, mt c (Buf i) = Some x
       ∧ ∀ j y, mt c (Buf j) = Some y → buf_key y = buf_key x → (j ≤ i)%nat.

(** [binit] keeps the invariant when the buffers in use are the last of
    their keys; at boot none is in use. *)
Lemma Inv_binit hs c c' :
  (∀ i x, mt c (Buf i) = Some x → refcnt x ≠ 0%N → last_of_key c i) →
  (∀ b, b ∈ hs → ∃ i, b = Buf i ∧ last_of_key c i) →
  binit c = Ret tt c' → Inv hs c'.
Proof.
  intros Hlive Hhs Hrun.
  destruct (binit_run c) as (c'' & Hrun' & Hdll & Hm & Hmap & Hs & _).
  assert (c'' = c') as -> by congruence. clear Hrun Hrun'.
  assert (∀ j, mt c' (Buf j) = set_lock lock0 <$> mt c (Buf j)) as Hmt.
  { intros j. rewrite Hm. unfold mt_init. by rewrite decide_True by lia. }
  assert (∀ k p, cache_map c' !! k = Some p ↔
            ∃ j x, p = Buf j ∧ mt c (Buf j) = Some x ∧ buf_key x = k
              ∧ ∀ j' y, mt c (Buf j') = Some y → buf_key y = k → (j' ≤ j)%nat)
    as Hidx.
  { intros k p. rewrite Hmap, put_keys_lookup. split.
    - intros [(j & -> & Hj & Hmax)|[_ ?]]; [|done].
      rewrite keys_lookup in Hj.
      destruct (mt c (Buf j)) as [x|] eqn:Hx; [|done].
      exists j, x. split_and!; try done; [by injection Hj|].
      intros j' y Hy Hk. apply Hmax. rewrite keys_lookup, Hy. simpl.
      by rewrite Hk.
    - intros (j & x & -> & Hx & Hk & Hmax). left. exists j.
      split_and!; try done.
      + rewrite keys_lookup, Hx. simpl. by rewrite Hk.
      + intros j'. rewrite keys_lookup.
        destruct (mt c (Buf j')) as [y|] eqn:Hy; [|done].
        intros [= E]. by apply (Hmax j' y). }
  assert (∀ i, last_of_key c i → in_index c' (Buf i)) as Hlast.
  { intros i (x & Hx & Hmax). exists (buf_key x). apply Hidx.
    exists i, x. done. }
  split; try done.
  - by exists (rev (seq 0 (NBUF c))).
  - intros i z. rewrite Hmt.
    destruct (mt c (Buf i)) as [x|] eqn:Hx; [|done]. intros [= <-].
    rewrite Hmap. apply put_keys_is_Some.
    apply list_elem_of_lookup. exists i. by rewrite keys_lookup, Hx.
  - intros k p (j & x & -> & Hx & Hk & Hmax)%Hidx.
    exists j, (set_lock lock0 x). split_and!; try done.
    + by rewrite Hmt, Hx.
    + intros j' z. rewrite Hmt.
      destruct (mt c (Buf j')) as [y|] eqn:Hy; [|done]. intros [= <-].
      simpl. intros E. apply (Hmax j' y); [done|]. by rewrite <-Hk.
  - intros i z. rewrite Hmt.
    destruct (mt c (Buf i)) as [x|] eqn:Hx; [|done]. intros [= <-].
    simpl. intros [Hr|?]; [|done]. by apply Hlast, (Hlive i x).
  - intros b (i & -> & Hi)%Hhs. by apply Hlast.
Qed.

Lemma Inv_last_of_key hs c i :
  Inv hs c → in_index c (Buf i) → last_of_key c i.
Proof.
  intros HI [k Hk].
  destruct (inv_index _ _ HI _ _ Hk) as (i' & x & [= <-] & Hx & Hmax).
  by exists x.
Qed.

Lemma Inv_boot n d c : binit (boot n d) = Ret tt c → Inv [] c.
Proof.
  apply Inv_binit; [|set_solver].
  intros i x Hx Hr. unfold mt in Hx. simpl in Hx.
  destruct (replicate n buf0 !! i) as [y|] eqn:E; [|done].
  apply lookup_replicate in E as [-> _]. by injection Hx as <-.
Qed.

(** ** Every call keeps the invariant *)

Lemma store_set_spin c v p y1 y2 :
  store (set_spin v (store c p y1)) p y2 = set_spin v (store c p y2).
Proof.
  destruct p as [| |i]; try done. unfold store, set_bufs, set_spin. simpl.
  by rewrite list_insert_insert_eq.
Qed.

(** What a call may leave behind: the invariant when it returns or sleeps,
    the buffers as they were when it panics; it never spins. *)
Definition outcome_inv {A} (hs : A → list ptr) (hsl : ptr → list ptr)
    (c : bcache) (o : outcome A) : Prop :=
  match o with
  | Ret r c' => Inv (hs r) c'
  | Sleep b c' => Inv (hsl b) c'
  | Panic _ c' => ∀ a, mt c' a = mt c a
  | Spin _ => False
  | Fault | Diverge => True
  end.

Lemma Inv_index_valid hs c :
  Inv hs c →
  ∀ k p, cache_map c !! k = Some p → p ≠ Null ∧ is_Some (load c p).
Proof.
  intros HI k p Hk.
  destruct (Inv_index_load hs c p HI) as (i & x & -> & Hx); [by exists k|].
  split; [done|eauto].
Qed.

Lemma bget_inv hs c pid d bn :
  Inv hs c →
  outcome_inv (λ b, b :: hs) (λ b, b :: hs) c (bget pid d bn c).
Proof.
  intros HI. destruct (inv_dll _ _ HI) as [l Hdll].
  destruct (bget_cases pid d bn c l (inv_spin _ _ HI) Hdll
              (Inv_index_valid _ _ HI))
    as [(b & x & Hm & Hx & ->)|[(Hm & l1 & v & xv & l2 & -> & Hv & Hz & Hb & ->)
                                |(Hm & Hb & ->)]].
  - destruct (Inv_index_load hs c b HI) as (i & x' & -> & _); [by exists (d, bn)|].
    assert (in_index c (Buf i)) as Hin by (by exists (d, bn)).
    unfold lock_or_sleep. destruct (locked (lock (pinned x))); cbn [outcome_inv].
    + apply (Inv_store_meta hs _ c _ i x (pinned x)); try done. set_solver.
    + unfold hit_state. rewrite store_set_spin.
      apply (Inv_store_meta hs _ c _ i x
               (set_lock (mksleeplock true pid) (pinned x))); try done.
      set_solver.
  - unfold lock_or_sleep. destruct (locked (lock (recycled d bn xv))); cbn [outcome_inv].
    + apply (Inv_store_recycle hs _ c _ v xv (recycled d bn xv) d bn);
        try done. set_solver.
    + assert (store (recycle_state d bn (Buf v) xv c) (Buf v)
                (set_lock (mksleeplock true pid) (recycled d bn xv))
              = set_spin false
                  (set_cache_map (<[(d, bn) := Buf v]> (cache_map c))
                     (store c (Buf v)
                        (set_lock (mksleeplock true pid) (recycled d bn xv)))))
        as ->.
      { unfold recycle_state, store, set_bufs, set_spin, set_cache_map. simpl.
        by rewrite list_insert_insert_eq. }
      apply (Inv_store_recycle hs _ c _ v xv
               (set_lock (mksleeplock true pid) (recycled d bn xv)) d bn);
        try done. set_solver.
  - simpl. done.
Qed.

Lemma bread_fill_inv hs c b :
  Inv hs c → b ∈ hs →
  ∃ c', bread_fill b c = Ret b c' ∧ Inv hs c'.
Proof.
  intros HI Hb.
  destruct (Inv_index_load hs c b HI) as (i & x & -> & Hx);
    [by apply (inv_handles _ _ HI)|].
  rewrite (bread_fill_run _ _ _ Hx). destruct (valid x =? 0); [|eauto].
  eexists. split; [done|].
  apply (Inv_store_meta hs hs c _ i x
           (set_valid 1 (set_data (default [] (disk c !! buf_key x)) x)));
    try done.
  - by apply (inv_handles _ _ HI).
  - apply (inv_spin _ _ HI).
  - set_solver.
Qed.

Lemma exec_inv hs c o :
  Inv hs c → args_ok hs o →
  outcome_inv (λ r, option_list r ++ hs) (λ b, b :: hs) c (exec o c).
Proof.
  intros HI Hargs. pose proof (inv_spin _ _ HI) as Hs.
  destruct o as [|pid d bn|pid d bn|pid b|pid b|b|b|size|pid b|pid b];
    unfold exec, args_ok in *; simpl in Hargs.
  - destruct (binit_run c) as (c' & Hrun & _). unfold bind. rewrite Hrun.
    simpl. apply (Inv_binit hs c c'); [| |done].
    + intros i x Hx Hr. apply (Inv_last_of_key hs); [done|].
      apply (inv_live _ _ HI i x); auto.
    + intros b Hb. pose proof (inv_handles _ _ HI b Hb) as Hin.
      destruct (Inv_index_load hs c b HI Hin) as (i & x & -> & _).
      exists i. split; [done|]. by apply (Inv_last_of_key hs).
  - pose proof (bget_inv hs c pid d bn HI) as H. unfold bind.
    destruct (bget pid d bn c); simpl in *; done.
  - pose proof (bget_inv hs c pid d bn HI) as H. unfold bind, bread.
    unfold bind. destruct (bget pid d bn c) as [b c1| | | | |]; simpl in *;
      try done.
    destruct (bread_fill_inv (b :: hs) c1 b H) as (c2 & -> & HI2);
      [set_solver|]. done.
  - specialize (Hargs b eq_refl).
    destruct (Inv_index_load hs c b HI) as (i & x & -> & Hx);
      [by apply (inv_handles _ _ HI)|].
    unfold bind. destruct (holding pid x) eqn:Hh.
    + rewrite (bwrite_run _ _ _ _ Hx Hh). simpl.
      apply (Inv_frame hs hs c); try done.
    + rewrite (bwrite_panic _ _ _ _ Hx Hh). simpl. done.
  - specialize (Hargs b eq_refl).
    pose proof (inv_handles _ _ HI b Hargs) as Hin.
    destruct (Inv_index_load hs c b HI Hin) as (i & x & -> & Hx).
    unfold bind. destruct (holding pid x) eqn:Hh.
    + destruct (inv_dll _ _ HI) as [l Hdll].
      destruct (brelse_run pid i x c l Hs Hx Hh Hdll)
        as (c' & -> & (Hs' & Hmap & _) & Hm & Hdll').
      simpl.
      apply (Inv_same_key hs hs c c' i (meta x) (meta (released x)));
        try done.
      * unfold mt. by rewrite Hx.
      * eauto.
      * congruence.
      * set_solver.
    + rewrite (brelse_panic _ _ _ _ Hx Hh). simpl. done.
  - specialize (Hargs b eq_refl).
    pose proof (inv_handles _ _ HI b Hargs) as Hin.
    destruct (Inv_index_load hs c b HI Hin) as (i & x & -> & Hx).
    unfold bind. rewrite (bpin_run _ _ _ Hs Hx). simpl.
    apply (Inv_store_meta hs hs c _ i x (pinned x)); try done. set_solver.
  - specialize (Hargs b eq_refl).
    pose proof (inv_handles _ _ HI b Hargs) as Hin.
    destruct (Inv_index_load hs c b HI Hin) as (i & x & -> & Hx).
    unfold bind. rewrite (bunpin_run _ _ _ Hs Hx).
    destruct (refcnt x =? 0)%N; simpl; [done|].
    apply (Inv_store_meta hs hs c _ i x
             (set_refcnt (uint_dec (refcnt x)) x)); try done. set_solver.
  - unfold bind. rewrite (set_cache_size_run _ _ Hs). simpl.
    apply (Inv_frame hs hs c); try done.
  - specialize (Hargs b eq_refl).
    pose proof (inv_handles _ _ HI b Hargs) as Hin.
    destruct (Inv_index_load hs c b HI Hin) as (i & x & -> & Hx).
    unfold bind. rewrite (acquiresleep_run _ _ _ _ Hx).
    destruct (locked (lock x)); cbn [outcome_inv ret option_list app].
    + apply (Inv_frame hs _ c); try done. set_solver.
    + apply (Inv_store_meta hs _ c _ i x (set_lock (mksleeplock true pid) x));
        try done. set_solver.
  - specialize (Hargs b eq_refl).
    pose proof (inv_handles _ _ HI b Hargs) as Hin.
    destruct (Inv_index_load hs c b HI Hin) as (i & x & -> & Hx).
    unfold bind. rewrite (acquiresleep_run _ _ _ _ Hx).
    destruct (locked (lock x)).
    + cbn [outcome_inv]. apply (Inv_frame hs _ c); try done. set_solver.
    + assert (Inv hs (store c (Buf i) (set_lock (mksleeplock true pid) x)))
        as HI1.
      { apply (Inv_store_meta hs _ c _ i x
                 (set_lock (mksleeplock true pid) x)); try done. set_solver. }
      destruct (bread_fill_inv hs _ (Buf i) HI1 Hargs) as (c2 & -> & HI2).
      cbn [outcome_inv ret option_list app].
      apply (Inv_frame hs _ c2); try done.
      * apply (inv_spin _ _ HI2).
      * set_solver.
Qed.

Lemma running_Inv hs c : running hs c → Inv hs c.
Proof.
  induction 1 as [n d c Hrun|hs c o r c' _ IH Hargs Hex|hs c o b c' _ IH Hargs Hex].
  - by apply (Inv_boot n d).
  - pose proof (exec_inv hs c o IH Hargs) as H. by rewrite Hex in H.
  - pose proof (exec_inv hs c o IH Hargs) as H. by rewrite Hex in H.
Qed.

(** ** Runs used as examples *)

(** A client that reads the block [(d, bn)] and releases it at once. *)
Definition read_release (pid : nat) (d bn : N) : M unit :=
  b <- bread pid d bn;; brelse pid b.

(** A client that reads and releases the blocks [bns] of device [d], one
    after the other. *)
Fixpoint read_all (pid : nat) (d : N) (bns : list N) : M unit :=
  match bns with
  | [] => ret tt
  | bn :: r => _ <- read_release pid d bn;; read_all pid d r
  end.

(** The block numbers [1 .. n]. *)
Definition blocks (n : nat) : list N := N.of_nat <$> seq 1 n.

(** The state a call leaves, for the calls that leave one. *)
Definition after {A} (m : M A) (c : bcache) : bcache :=
  default c (state_of (m c)).

(** Buffer [i] of the pool of [c]. *)
Definition buf_at (c : bcache) (i : nat) : buf := default buf0 (bufs c !! i).

(** The value a call returns, if it returns. *)
Definition ret_val {A} (o : outcome A) : option A :=
  match o with
  | Ret a _ => Some a
  | _ => None
  end.

(** The buffer [bget] settles on, whether its caller gets the content lock
    at once or sleeps for it. *)
Definition victim (o : outcome ptr) : option ptr :=
  match o with
  | Ret b _ | Sleep b _ => Some b
  | _ => None
  end.

(** ** The recency list along a run *)

(** A write to a buffer that keeps its links keeps the recency list. *)
Lemma dll_store c c' i x y l :
  load c (Buf i) = Some x → next y = next x → prev y = prev x →
  (∀ a, load c' a = load (store c (Buf i) y) a) →
  dll c l → dll c' l.
Proof.
  intros Hx Hn Hp Hl Hdll.
  destruct (views_load _ _ Hl) as (Vn & Vp & _).
  destruct (store_meta c (Buf i) x y Hx Hn Hp) as (Sn & Sp & _).
  apply (dll_frame c); [| | |done].
  - intros a. by rewrite Vn, Sn.
  - intros a. by rewrite Vp, Sp.
  - rewrite (NBUF_load _ _ Hl). apply frame_NBUF, frame_store.
Qed.

Lemma dll_load c c' l : (∀ a, load c' a = load c a) → dll c l → dll c' l.
Proof.
  intros Hl Hdll. destruct (views_load _ _ Hl) as (Vn & Vp & _).
  apply (dll_frame c); try done. by apply NBUF_load.
Qed.

(** [bget] never moves a buffer in the recency list. *)
Lemma bget_dll hs c pid d bn l :
  Inv hs c → dll c l →
  match bget pid d bn c with
  | Ret _ c' | Sleep _ c' => dll c' l
  | _ => True
  end.
Proof.
  intros HI Hdll.
  destruct (bget_cases pid d bn c l (inv_spin _ _ HI) Hdll
              (Inv_index_valid _ _ HI))
    as [(b & x & Hm & Hx & ->)|[(Hm & l1 & v & xv & l2 & El & Hv & Hz & Hb & ->)
                                |(Hm & Hb & ->)]]; [| |done].
  - destruct (Inv_index_load hs c b HI) as (i & x' & -> & _); [by exists (d, bn)|].
    unfold lock_or_sleep. destruct (locked (lock (pinned x))).
    + by apply (dll_store c _ i x (pinned x)).
    + unfold hit_state. rewrite store_set_spin.
      by apply (dll_store c _ i x (set_lock (mksleeplock true pid) (pinned x))).
  - unfold lock_or_sleep. destruct (locked (lock (recycled d bn xv))).
    + by apply (dll_store c _ v xv (recycled d bn xv)).
    + apply (dll_store c _ v xv
               (set_lock (mksleeplock true pid) (recycled d bn xv)));
        try done.
      intros [| |j]; try done.
      unfold recycle_state, load, store, set_bufs, set_spin, set_cache_map.
      simpl. by rewrite list_insert_insert_eq.
Qed.

(** Nor does the transfer of [bread]. *)
Lemma bread_fill_dll c i x l :
  load c (Buf i) = Some x → dll c l →
  ∃ c', bread_fill (Buf i) c = Ret (Buf i) c' ∧ dll c' l.
Proof.
  intros Hx Hdll. rewrite (bread_fill_run _ _ _ Hx).
  destruct (valid x =? 0); [|eauto].
  eexists. split; [done|].
  by apply (dll_store c _ i x
              (set_valid 1 (set_data (default [] (disk c !! buf_key x)) x))).
Qed.

(** The recency list a call leaves, from the list [l] it finds: [binit]
    builds it anew, a [brelse] that drops the reference count of its buffer
    to zero moves that buffer to the front, and every other call leaves the
    list as it is. *)
Definition list_after (o : op) (c : bcache) (l : list nat) : list nat :=
  match o with
  | Binit => rev (seq 0 (NBUF c))
  | Brelse _ (Buf i) =>
      if (uint_dec (refcnt (buf_at c i)) =? 0)%N then move_front i l else l
  | _ => l
  end.

Lemma exec_list hs c o l :
  Inv hs c → args_ok hs o → dll c l →
  match exec o c with
  | Ret _ c' | Sleep _ c' => dll c' (list_after o c l)
  | _ => True
  end.
Proof.
  intros HI Hargs Hdll. pose proof (inv_spin _ _ HI) as Hs.
  destruct o as [|pid d bn|pid d bn|pid b|pid b|b|b|size|pid b|pid b];
    unfold exec, args_ok in *; simpl in Hargs; cbn [list_after].
  - destruct (binit_run c) as (c' & Hrun & Hdll' & _). unfold bind.
    by rewrite Hrun.
  - pose proof (bget_dll hs c pid d bn l HI Hdll) as H. unfold bind.
    by destruct (bget pid d bn c).
  - pose proof (bget_dll hs c pid d bn l HI Hdll) as H.
    pose proof (bget_inv hs c pid d bn HI) as H'.
    unfold bread, bind.
    destruct (bget pid d bn c) as [b c1| | | | |]; try done.
    cbn [outcome_inv] in H'.
    destruct (Inv_index_load _ c1 b H') as (i & x & -> & Hx).
    { apply (inv_handles _ _ H'). set_solver. }
    destruct (bread_fill_dll c1 i x l Hx H) as (c2 & -> & Hdll2). done.
  - specialize (Hargs b eq_refl).
    destruct (Inv_index_load hs c b HI) as (i & x & -> & Hx);
      [by apply (inv_handles _ _ HI)|].
    unfold bind. destruct (holding pid x) eqn:Hh.
    + rewrite (bwrite_run _ _ _ _ Hx Hh). by apply (dll_load c).
    + by rewrite (bwrite_panic _ _ _ _ Hx Hh).
  - specialize (Hargs b eq_refl).
    destruct (Inv_index_load hs c b HI) as (i & x & -> & Hx);
      [by apply (inv_handles _ _ HI)|].
    assert (buf_at c i = x) as ->.
    { unfold buf_at. simpl in Hx. by rewrite Hx. }
    unfold bind. destruct (holding pid x) eqn:Hh.
    + destruct (brelse_run pid i x c l Hs Hx Hh Hdll)
        as (c' & -> & _ & _ & Hdll'). exact Hdll'.
    + by rewrite (brelse_panic _ _ _ _ Hx Hh).
  - specialize (Hargs b eq_refl).
    destruct (Inv_index_load hs c b HI) as (i & x & -> & Hx);
      [by apply (inv_handles _ _ HI)|].
    unfold bind. rewrite (bpin_run _ _ _ Hs Hx).
    by apply (dll_store c _ i x (pinned x)).
  - specialize (Hargs b eq_refl).
    destruct (Inv_index_load hs c b HI) as (i & x & -> & Hx);
      [by apply (inv_handles _ _ HI)|].
    unfold bind. rewrite (bunpin_run _ _ _ Hs Hx).
    destruct (refcnt x =? 0)%N; [done|].
    by apply (dll_store c _ i x (set_refcnt (uint_dec (refcnt x)) x)).
  - unfold bind. rewrite (set_cache_size_run _ _ Hs). by apply (dll_load c).
  - specialize (Hargs b eq_refl).
    destruct (Inv_index_load hs c b HI) as (i & x & -> & Hx);
      [by apply (inv_handles _ _ HI)|].
    unfold bind. rewrite (acquiresleep_run _ _ _ _ Hx).
    destruct (locked (lock x)); [done|].
    by apply (dll_store c _ i x (set_lock (mksleeplock true pid) x)).
  - specialize (Hargs b eq_refl).
    destruct (Inv_index_load hs c b HI) as (i & x & -> & Hx);
      [by apply (inv_handles _ _ HI)|].
    unfold bind. rewrite (acquiresleep_run _ _ _ _ Hx).
    destruct (locked (lock x)); [done|].
    set (c1 := store c (Buf i) (set_lock (mksleeplock true pid) x)).
    assert (dll c1 l) as Hdll1
      by (by apply (dll_store c _ i x (set_lock (mksleeplock true pid) x))).
    destruct (bread_fill_dll c1 i _ l (load_store_eq _ _ _ _ Hx) Hdll1)
      as (c2 & -> & Hdll2). done.
Qed.

(** ** The claims *)

(** C1 (fails on the cache-hit path). With a pool of 30 buffers, after the
    blocks 1 to 31 of device 1 have been read and released, buffer 0 holds
    block 31 while the hash map still maps block 1 to it: [bget] for block 1
    returns buffer 0, whose [dev]/[blockno] are those of block 31, marked
    valid. *)
Theorem bget_stale_hit :
  ∃ c c' x,
    (_ <- binit;; read_all 1 1%N (blocks 31)) (boot 30 ∅) = Ret tt c
    ∧ bget 1 1%N 1%N c = Ret (Buf 0) c'
    ∧ load c' (Buf 0) = Some x
    ∧ buf_key x = (1%N, 31%N) ∧ valid x = 1 ∧ refcnt x = 1%N.
Proof.
  set (c := after (_ <- binit;; read_all 1 1%N (blocks 31)) (boot 30 ∅)).
  set (c' := after (bget 1 1%N 1%N) c).
  exists c, c', (buf_at c' 0).
  split_and!; vm_compute; reflexivity.
Qed.

(** C2 (the removal is missing). With a pool of 30 buffers, after the blocks
    1 to 30 of device 1 have been read and released, [bget] for block 31
    recycles buffer 0, which held block 1: the new key is put in the hash
    map, and the old key still maps to the recycled buffer. *)
Theorem bget_recycle_keeps_stale_key :
  ∃ c c' x x',
    (_ <- binit;; read_all 1 1%N (blocks 30)) (boot 30 ∅) = Ret tt c
    ∧ cache_map c !! (1%N, 31%N) = None
    ∧ load c (Buf 0) = Some x ∧ buf_key x = (1%N, 1%N) ∧ refcnt x = 0%N
    ∧ bget 1 1%N 31%N c = Ret (Buf 0) c'
    ∧ load c' (Buf 0) = Some x' ∧ buf_key x' = (1%N, 31%N)
    ∧ cache_map c' !! (1%N, 31%N) = Some (Buf 0)
    ∧ cache_map c' !! (1%N, 1%N) = Some (Buf 0).
Proof.
  set (c := after (_ <- binit;; read_all 1 1%N (blocks 30)) (boot 30 ∅)).
  set (c' := after (bget 1 1%N 31%N) c).
  exists c, c', (buf_at c 0), (buf_at c' 0).
  split_and!; vm_compute; reflexivity.
Qed.

(** C3. In every reachable state, two different buffers of the pool with the
    same device and block number do not both have a positive reference
    count. *)
Theorem unique_live_key c i j x y :
  reachable c →
  bufs c !! i = Some x → bufs c !! j = Some y →
  buf_key x = buf_key y → (0 < refcnt x)%N → (0 < refcnt y)%N →
  i = j.
Proof.
  intros (hs & c0 & Hrun%running_Inv & Hc) Hx Hy Hk Hrx Hry.
  assert (∀ a, mt c a = mt c0 a) as Hm.
  { destruct Hc as [->|(o & msg & Hargs & Hex)]; [done|].
    pose proof (exec_inv hs c0 o Hrun Hargs) as H. by rewrite Hex in H. }
  assert (mt c0 (Buf i) = Some (meta x)) as Hx0.
  { rewrite <-Hm. unfold mt. simpl. by rewrite Hx. }
  assert (mt c0 (Buf j) = Some (meta y)) as Hy0.
  { rewrite <-Hm. unfold mt. simpl. by rewrite Hy. }
  assert (last_of_key c0 i) as (x' & Hx' & Hmaxi).
  { apply (Inv_last_of_key hs); [done|].
    apply (inv_live _ _ Hrun i (meta x) Hx0). left. simpl. lia. }
  assert (last_of_key c0 j) as (y' & Hy' & Hmaxj).
  { apply (Inv_last_of_key hs); [done|].
    apply (inv_live _ _ Hrun j (meta y) Hy0). left. simpl. lia. }
  assert (x' = meta x) as -> by congruence.
  assert (y' = meta y) as -> by congruence.
  pose proof (Hmaxi j (meta y) Hy0 (eq_sym Hk)).
  pose proof (Hmaxj i (meta x) Hx0 Hk). lia.
Qed.

(** The state after boot and the call [bget (0, 0)] of process 1. *)
Definition one_held : bcache :=
  default (boot 0 ∅)
    (state_of ((_ <- binit;; bget 1 0%N 0%N) (boot 2 ∅))).

Lemma unique_live_key_witness :
  reachable one_held
  ∧ (∃ x, bufs one_held !! 1%nat = Some x ∧ (0 < refcnt x)%N)
  ∧ 1%nat = 1%nat.
Proof.
  assert (reachable one_held) as Hr.
  { destruct (binit_run (boot 2 ∅)) as (c & Hc & _).
    exists [Buf 1], one_held. split; [|by left].
    apply (run_ret [] c (Bget 1 0%N 0%N) (Some (Buf 1)) one_held).
    - by apply (run_boot 2 ∅).
    - intros b Hb. done.
    - assert (c = default (boot 0 ∅) (state_of (binit (boot 2 ∅)))) as ->
        by (by rewrite Hc).
      vm_compute. reflexivity. }
  split; [done|]. split.
  - eexists. split; [vm_compute; reflexivity|]. done.
  - assert (bufs one_held !! 1%nat = Some
              (mkbuf 0 0%N 0%N (mksleeplock true 1) 1%N Head (Buf 0) []))
      as H by (vm_compute; reflexivity).
    apply (unique_live_key one_held 1 1 _ _ Hr H H); done.
Defined.

(** C4 (the index is not empty after [binit]). At boot every buffer carries
    the key (0, 0); [binit] puts each of them in the hash map under that
    key, so with 30 buffers the map ends up with the entry (0, 0) for the
    last one. *)
Lemma binit_index_not_empty :
  ∃ c, binit (boot 30 ∅) = Ret tt c
       ∧ cache_map c !! (0%N, 0%N) = Some (Buf 29) ∧ cache_map c ≠ ∅.
Proof.
  exists (after binit (boot 30 ∅)). split_and!.
  - vm_compute. reflexivity.
  - vm_compute. reflexivity.
  - intros H. apply (f_equal (λ m, m !! (0%N, 0%N))) in H.
    vm_compute in H. done.
Qed.

(** C4, as the code has it. After [binit] at boot the hash map has exactly
    one entry, from the key (0, 0) of the zeroed buffers to the last buffer
    of the pool (none for an empty pool), and the recency list holds every
    buffer of the pool exactly once. *)
Theorem binit_at_boot n d :
  ∃ c l,
    binit (boot n d) = Ret tt c
    ∧ cache_map c = match n with
                    | O => ∅
                    | S m => {[ (0%N, 0%N) := Buf m ]}
                    end
    ∧ dll c l ∧ NoDup l ∧ (∀ i, i ∈ l ↔ (i < n)%nat).
Proof.
  destruct (binit_run (boot n d))
    as (c & Hrun & Hdll & _ & Hmap & _ & _ & _ & _ & HN).
  exists c, (rev (seq 0 (NBUF (boot n d)))). split; [done|]. split.
  - rewrite Hmap, keys_boot. destruct n as [|m]; [done|].
    rewrite put_keys_replicate. done.
  - split; [done|]. destruct Hdll as (ND & Hall & _). split; [done|].
    intros i. rewrite Hall, HN. unfold NBUF. simpl.
    by rewrite length_replicate.
Qed.

(** The runs of a list of calls, from first to last. *)
Fixpoint run_trace (t : list op) (c : bcache) : option bcache :=
  match t with
  | [] => Some c
  | o :: r =>
      match exec o c with
      | Ret _ c' | Sleep _ c' => run_trace r c'
      | _ => None
      end
  end.

(** The position in [t], counted from [n], of the last [brelse] of [b]. *)
Fixpoint last_release_from (n : nat) (t : list op) (b : ptr) (acc : option nat)
  : option nat :=
  match t with
  | [] => acc
  | Brelse _ b' :: r =>
      last_release_from (S n) r b (if decide (b' = b) then Some n else acc)
  | _ :: r => last_release_from (S n) r b acc
  end.

Definition last_release (t : list op) (b : ptr) : option nat :=
  last_release_from 0 t b None.

(** Two blocks are read into the two buffers of the pool; the first buffer
    is pinned; the second is released, then the first, which is unpinned
    afterwards. *)
Definition pin_trace : list op :=
  [ Binit; Bread 1 1%N 1%N; Bread 1 1%N 2%N; Bpin (Buf 0);
    Brelse 1 (Buf 1); Brelse 1 (Buf 0); Bunpin (Buf 0) ].

(** C5 (release time does not decide). After [pin_trace] both buffers have
    a reference count of zero, buffer 1 was released before buffer 0, and
    buffer 0 went to zero last, through [bunpin]; yet [bget] for a new block
    recycles buffer 0: its release did not move it in the list, because the
    pin kept its count above zero. *)
Lemma unpinned_buffer_recycled_first :
  ∃ c c' x0 x1,
    run_trace pin_trace (boot 2 ∅) = Some c
    ∧ load c (Buf 0) = Some x0 ∧ refcnt x0 = 0%N
    ∧ load c (Buf 1) = Some x1 ∧ refcnt x1 = 0%N
    ∧ last_release pin_trace (Buf 1) = Some 4%nat
    ∧ last_release pin_trace (Buf 0) = Some 5%nat
    ∧ cache_map c !! (1%N, 3%N) = None
    ∧ bget 1 1%N 3%N c = Ret (Buf 0) c'.
Proof.
  set (c := default (boot 0 ∅) (run_trace pin_trace (boot 2 ∅))).
  set (c' := after (bget 1 1%N 3%N) c).
  exists c, c', (buf_at c 0), (buf_at c 1).
  split_and!; vm_compute; reflexivity.
Qed.

(** C5, as the code has it. (1) A [bget] that misses recycles the buffer
    with a zero reference count that is nearest to the least recently used
    end of the recency list: every buffer behind it is referenced.
    (2) A [brelse] that drops the count to zero moves the buffer to the most
    recently used end, and the next [bget] that misses recycles another
    buffer whenever another one has a zero count.
    (3) [bunpin] never moves a buffer: also when it drops the count to
    zero, the buffer keeps the position it had in the recency list.
    (4) The order of the recency list changes only through [binit] and
    through the [brelse] calls that drop a count to zero: whatever the call
    of the running kernel, when it returns or puts its caller to sleep the
    list is the one [list_after] gives. *)
Theorem eviction_order :
  (∀ pid d bn c l1 v xv l2,
     spin c = false → dll c (l1 ++ v :: l2) →
     cache_map c !! (d, bn) = None →
     load c (Buf v) = Some xv → refcnt xv = 0%N →
     (∀ j, j ∈ l2 → busy c j) →
     victim (bget pid d bn c) = Some (Buf v))
  ∧ (∀ pid i x c l,
       spin c = false → dll c l →
       load c (Buf i) = Some x → holding pid x = true →
       uint_dec (refcnt x) = 0%N →
       ∃ c', brelse pid (Buf i) c = Ret tt c'
         ∧ dll c' (i :: filter (λ j, j ≠ i) l)
         ∧ ∀ pid' d bn j y,
             cache_map c' !! (d, bn) = None →
             j ≠ i → load c' (Buf j) = Some y → refcnt y = 0%N →
             ∃ v, v ≠ i ∧ victim (bget pid' d bn c') = Some (Buf v))
  ∧ (∀ i x c l,
       spin c = false → dll c l →
       load c (Buf i) = Some x → refcnt x ≠ 0%N →
       ∃ c' y, bunpin (Buf i) c = Ret tt c'
         ∧ load c' (Buf i) = Some y ∧ refcnt y = uint_dec (refcnt x)
         ∧ dll c' l)
  ∧ (∀ hs c o l c',
       running hs c → args_ok hs o → dll c l →
       run_trace [o] c = Some c' →
       dll c' (list_after o c l)).
Proof.
  assert (∀ pid d bn c l1 v xv l2,
     spin c = false → dll c (l1 ++ v :: l2) →
     cache_map c !! (d, bn) = None →
     load c (Buf v) = Some xv → refcnt xv = 0%N →
     (∀ j, j ∈ l2 → busy c j) →
     victim (bget pid d bn c) = Some (Buf v)) as Hfirst.
  { intros pid d bn c l1 v xv l2 Hs Hdll Hm Hv Hz Hb.
    rewrite (bget_miss_found pid d bn c l1 v xv l2); try done.
    - by destruct (locked (lock xv)).
    - by rewrite Hm. }
  split; [exact Hfirst|]. split; [|split].
  - intros pid i x c l Hs Hdll Hx Hh Hz.
    destruct (brelse_run pid i x c l Hs Hx Hh Hdll)
      as (c' & Hrun & (Hs' & _) & Hm & Hdll').
    assert (refcnt (released x) = 0%N) as Hz' by done.
    rewrite Hz' in Hdll'. simpl in Hdll'. unfold move_front in Hdll'.
    exists c'. split; [done|]. split; [done|].
    intros pid' d bn j y Hmiss Hj Hy Hy0.
    set (l' := i :: filter (λ j, j ≠ i) l) in *.
    assert (j ∈ l') as Hjl.
    { destruct Hdll' as (_ & Hall' & _). apply Hall'.
      simpl in Hy. by apply lookup_lt_Some in Hy. }
    destruct (scan_split c' l')
      as [Hbusy|(l1 & v & xv & l2 & E & Hv & Hv0 & Hb)].
    + intros k Hk. by apply (dll_valid c' l').
    + exfalso. by apply (Hbusy j Hjl y).
    + exists v. split.
      * intros ->. destruct l1 as [|a l1].
        -- injection E as E. apply (Hb j) with (x := y); [|done|done].
           rewrite <-E. unfold l' in Hjl.
           apply elem_of_cons in Hjl as [?|?]; done.
        -- destruct Hdll' as (ND & _ & _). rewrite E in ND.
           injection E as -> E. apply NoDup_cons in ND as [ND _].
           apply ND. set_solver.
      * rewrite E in Hdll'. apply (Hfirst pid' d bn c' l1 v xv l2); try done.
        congruence.
  - intros i x c l Hs Hdll Hx Hnz.
    exists (unpinned (Buf i) x c), (set_refcnt (uint_dec (refcnt x)) x).
    split_and!.
    + rewrite (bunpin_run _ _ _ Hs Hx).
      by apply N.eqb_neq in Hnz as ->.
    + unfold unpinned. rewrite load_set_spin.
      by apply (load_store_eq _ _ x).
    + done.
    + by apply (dll_store c _ i x (set_refcnt (uint_dec (refcnt x)) x)).
  - intros hs c o l c' HI%running_Inv Hargs Hdll Hrun.
    pose proof (exec_list hs c o l HI Hargs Hdll) as H.
    cbn [run_trace] in Hrun.
    destruct (exec o c); try done; by apply (inj Some) in Hrun as <-.
Qed.
(** ** Checking the recency list of a given state *)

Definition linkb (c : bcache) (p q : ptr) : bool :=
  bool_decide (nx c p = Some q) && bool_decide (pv c q = Some p).

Fixpoint pathb (c : bcache) (p : ptr) (l : list ptr) (q : ptr) : bool :=
  match l with
  | [] => linkb c p q
  | x :: l' => linkb c p x && pathb c x l' q
  end.

Definition dllb (c : bcache) (l : list nat) : bool :=
  bool_decide (NoDup l)
  && forallb (λ i, bool_decide (i < NBUF c)%nat) l
  && forallb (λ i, bool_decide (i ∈ l)) (seq 0 (NBUF c))
  && pathb c Head (Buf <$> l) Head.

Lemma pathb_path c l : ∀ p q, pathb c p l q = true → path c p l q.
Proof.
  induction l as [|x l IH]; intros p q; simpl; unfold linkb, link.
  - rewrite andb_true_iff, !bool_decide_eq_true. tauto.
  - rewrite !andb_true_iff, !bool_decide_eq_true. intros [? ?].
    split; [done|]. by apply IH.
Qed.

Lemma dllb_dll c l : dllb c l = true → dll c l.
Proof.
  unfold dllb. rewrite !andb_true_iff, bool_decide_eq_true, !forallb_forall.
  intros [[[ND H1] H2] H3]. split_and!; [done| |by apply pathb_path].
  intros i. split.
  - intros Hi%list_elem_of_In%H1. by apply bool_decide_eq_true in Hi.
  - intros Hi. assert (In i (seq 0 (NBUF c))) as Hin.
    { apply in_seq. lia. }
    apply H2 in Hin. by apply bool_decide_eq_true in Hin.
Qed.

(** The state after boot, and after boot and a [bread] of block (1, 1) by
    process 1. *)
Definition booted : bcache :=
  default (boot 0 ∅) (state_of (binit (boot 2 ∅))).

Definition one_read : bcache :=
  default (boot 0 ∅) (state_of ((_ <- binit;; bread 1 1%N 1%N) (boot 2 ∅))).

(** The state of [pin_trace] before its last call: buffer 1 has been
    released, buffer 0 too but it is still pinned. *)
Definition pinned_released : bcache :=
  default (boot 0 ∅) (run_trace (take 6 pin_trace) (boot 2 ∅)).

Lemma eviction_order_witness :
  victim (bget 1 1%N 1%N booted) = Some (Buf 0)
  ∧ (∃ c', brelse 1 (Buf 0) one_read = Ret tt c'
       ∧ ∃ v, v ≠ 0%nat ∧ victim (bget 1 1%N 2%N c') = Some (Buf v))
  ∧ (∃ c' y, bunpin (Buf 0) pinned_released = Ret tt c'
       ∧ load c' (Buf 0) = Some y ∧ refcnt y = 0%N
       ∧ dll c' [1%nat; 0%nat])
  ∧ dll (after (brelse 1 (Buf 0)) one_read) [0%nat; 1%nat].
Proof.
  destruct eviction_order as (H1 & H2 & H3 & H4). split_and!.
  - apply (H1 1%nat 1%N 1%N booted [1%nat] 0%nat (buf_at booted 0) []).
    + reflexivity.
    + apply dllb_dll. vm_compute. reflexivity.
    + vm_compute. reflexivity.
    + vm_compute. reflexivity.
    + reflexivity.
    + intros j Hj. by apply elem_of_nil in Hj.
  - destruct (H2 1%nat 0%nat (buf_at one_read 0) one_read [1%nat; 0%nat])
      as (c' & Hrun & Hdll & Hnext).
    + reflexivity.
    + apply dllb_dll. vm_compute. reflexivity.
    + vm_compute. reflexivity.
    + reflexivity.
    + reflexivity.
    + exists c'. split; [done|].
      assert (c' = default (boot 0 ∅) (state_of (brelse 1 (Buf 0) one_read)))
        as Ec by (by rewrite Hrun).
      apply (Hnext 1%nat 1%N 2%N 1%nat (buf_at c' 1)).
      * rewrite Ec. vm_compute. reflexivity.
      * done.
      * rewrite Ec. vm_compute. reflexivity.
      * rewrite Ec. vm_compute. reflexivity.
  - destruct (H3 0%nat (buf_at pinned_released 0) pinned_released
                [1%nat; 0%nat]) as (c' & y & Hrun & Hy & Hr & Hdll).
    + reflexivity.
    + apply dllb_dll. vm_compute. reflexivity.
    + vm_compute. reflexivity.
    + vm_compute. discriminate.
    + exists c', y. split_and!; [exact Hrun|exact Hy| |exact Hdll].
      rewrite Hr. vm_compute. reflexivity.
  - apply (H4 [Buf 0] one_read (Brelse 1 (Buf 0)) [1%nat; 0%nat]).
    + destruct (binit_run (boot 2 ∅)) as (c & Hc & _).
      apply (run_ret [] c (Bread 1 1%N 1%N) (Some (Buf 0)) one_read).
      * by apply (run_boot 2 ∅).
      * intros b Hb. done.
      * assert (c = default (boot 0 ∅) (state_of (binit (boot 2 ∅)))) as ->
          by (by rewrite Hc).
        vm_compute. reflexivity.
    + intros b Hb. injection Hb as <-. set_solver.
    + apply dllb_dll. vm_compute. reflexivity.
    + vm_compute. reflexivity.
Defined.

(** C6. When the block is not in the hash map and every buffer of the pool
    has a positive reference count, [bget] panics with the state as it
    was: it takes no buffer, does not sleep and does not spin. *)
Theorem bget_no_buffers pid d bn c l :
  spin c = false → dll c l →
  cache_map c !! (d, bn) = None →
  (∀ i x, load c (Buf i) = Some x → (0 < refcnt x)%N) →
  bget pid d bn c = Panic "bget: no buffers" c.
Proof.
  intros Hs Hdll Hm Hbusy. apply (bget_miss_none pid d bn c l); try done.
  - by rewrite Hm.
  - intros j _ x Hx. apply Hbusy in Hx. lia.
Qed.

(** The state after boot and the [bget] of two blocks by process 1, with a
    pool of two buffers. *)
Definition two_held : bcache :=
  default (boot 0 ∅)
    (state_of ((_ <- binit;; _ <- bget 1 1%N 1%N;; bget 1 1%N 2%N) (boot 2 ∅))).

Lemma bget_no_buffers_witness :
  bget 1 1%N 3%N two_held = Panic "bget: no buffers" two_held.
Proof.
  apply (bget_no_buffers 1 1%N 3%N two_held [1%nat; 0%nat]).
  - reflexivity.
  - apply dllb_dll. vm_compute. reflexivity.
  - vm_compute. reflexivity.
  - intros [|[|i]] x Hx; vm_compute in Hx; [| |done];
      injection Hx as <-; reflexivity.
Defined.

(** What a [bget] that returns leaves: the buffer is in the pool, the caller
    holds its content lock, the hash map maps the block to it, and no
    transfer took place. *)
Lemma bget_ret hs c pid d bn b c1 :
  Inv hs c → bget pid d bn c = Ret b c1 →
  ∃ i y, b = Buf i ∧ load c1 b = Some y
    ∧ lock y = mksleeplock true pid
    ∧ cache_map c1 !! (d, bn) = Some b
    ∧ io c1 = io c ∧ disk c1 = disk c
    ∧ ((∃ x, cache_map c !! (d, bn) = Some b ∧ load c b = Some x
             ∧ y = set_lock (mksleeplock true pid) (pinned x)
             ∧ cache_map c1 = cache_map c)
       ∨ (∃ x, cache_map c !! (d, bn) = None ∧ load c b = Some x
               ∧ refcnt x = 0%N
               ∧ y = set_lock (mksleeplock true pid) (recycled d bn x)
               ∧ cache_map c1 = <[(d, bn) := b]> (cache_map c))).
Proof.
  intros HI. destruct (inv_dll _ _ HI) as [l Hdll].
  destruct (bget_cases pid d bn c l (inv_spin _ _ HI) Hdll
              (Inv_index_valid _ _ HI))
    as [(b' & x & Hm & Hx & ->)|[(Hm & l1 & v & xv & l2 & -> & Hv & Hz & Hb & ->)
                                |(Hm & Hb & ->)]]; [| |done].
  - destruct (Inv_index_load hs c b' HI) as (i & x' & -> & _);
      [by exists (d, bn)|].
    unfold lock_or_sleep. destruct (locked (lock (pinned x))); [done|].
    unfold hit_state. rewrite store_set_spin. intros E.
    assert (b = Buf i ∧ c1 = set_spin false
              (store c (Buf i) (set_lock (mksleeplock true pid) (pinned x))))
      as [-> ->] by (by injection E).
    clear E. exists i, (set_lock (mksleeplock true pid) (pinned x)).
    split; [done|]. split.
    { rewrite load_set_spin. by apply (load_store_eq _ _ x). }
    split_and!; try done. left. exists x. done.
  - unfold lock_or_sleep. destruct (locked (lock (recycled d bn xv))); [done|].
    intros E.
    assert (b = Buf v ∧ c1 = store (recycle_state d bn (Buf v) xv c) (Buf v)
              (set_lock (mksleeplock true pid) (recycled d bn xv)))
      as [-> ->] by (by injection E).
    clear E.
    exists v, (set_lock (mksleeplock true pid) (recycled d bn xv)).
    split; [done|]. split.
    { apply (load_store_eq _ _ (recycled d bn xv)). unfold recycle_state.
      rewrite load_set_spin, load_set_cache_map.
      by apply (load_store_eq _ _ xv). }
    split_and!; try done.
    + simpl. by rewrite lookup_insert_eq.
    + right. exists xv. done.
Qed.

(** C7. [bread] reads the block from the device exactly when the buffer
    [bget] returns is not valid, and the buffer is valid when [bread]
    returns; after a [brelse], a second [bread] of the same block returns
    the same buffer without any transfer. *)
Theorem bread_transfers hs pid d bn c b c1 x :
  running hs c →
  bget pid d bn c = Ret b c1 → load c1 b = Some x →
  ∃ c2 y,
    bread pid d bn c = Ret b c2
    ∧ (valid x = 0 → c2 = filled b x c1 ∧ io c2 = IoRead (buf_key x) :: io c1)
    ∧ (valid x ≠ 0 → c2 = c1)
    ∧ load c2 b = Some y ∧ valid y ≠ 0
    ∧ ∃ c3 c4,
        brelse pid b c2 = Ret tt c3
        ∧ bread pid d bn c3 = Ret b c4
        ∧ io c4 = io c3 ∧ disk c4 = disk c3.
Proof.
  intros HI%running_Inv Hget Hx.
  pose proof (bget_inv hs c pid d bn HI) as HI1. rewrite Hget in HI1.
  simpl in HI1.
  destruct (bget_ret hs c pid d bn b c1 HI Hget)
    as (i & y1 & -> & Hy1 & Hlock & Hmap1 & _ & _ & _).
  assert (y1 = x) as -> by congruence. clear Hy1.
  set (y := if valid x =? 0
            then set_valid 1 (set_data (default [] (disk c1 !! buf_key x)) x)
            else x).
  set (c2 := if valid x =? 0 then filled (Buf i) x c1 else c1).
  assert (bread pid d bn c = Ret (Buf i) c2) as Hread.
  { unfold bread, bind. rewrite Hget, (bread_fill_run _ _ _ Hx).
    unfold c2. by destruct (valid x =? 0). }
  assert (load c2 (Buf i) = Some y) as Hy.
  { unfold c2, y. destruct (valid x =? 0); [|done]. unfold filled.
    rewrite load_set_io. by apply (load_store_eq _ _ x). }
  assert (valid y ≠ 0) as Hvalid.
  { unfold y. destruct (Z.eqb_spec (valid x) 0); [done|done]. }
  assert (lock y = mksleeplock true pid) as Hlock2.
  { unfold y. by destruct (valid x =? 0). }
  assert (cache_map c2 = cache_map c1) as Hmap2.
  { unfold c2. by destruct (valid x =? 0). }
  assert (Inv (Buf i :: hs) c2) as HI2.
  { destruct (bread_fill_inv (Buf i :: hs) c1 (Buf i) HI1) as (c2' & E & HI2);
      [set_solver|].
    rewrite (bread_fill_run _ _ _ Hx) in E. unfold c2.
    destruct (valid x =? 0); by injection E as <-. }
  exists c2, y. split; [done|]. split.
  { intros Hv. unfold c2. rewrite Hv. done. }
  split.
  { intros Hv. unfold c2. by destruct (Z.eqb_spec (valid x) 0). }
  split; [done|]. split; [done|].
  destruct (inv_dll _ _ HI2) as [l Hdll].
  assert (holding pid y = true) as Hh.
  { unfold holding. rewrite Hlock2. simpl. by rewrite bool_decide_eq_true. }
  destruct (brelse_run pid i y c2 l (inv_spin _ _ HI2) Hy Hh Hdll)
    as (c3 & Hrel & (Hs3 & Hmap3 & _) & Hm3 & Hdll3).
  exists c3.
  assert (∃ z, load c3 (Buf i) = Some z ∧ meta z = meta (released y))
    as (z & Hz & Ez).
  { specialize (Hm3 (Buf i)). rewrite decide_True in Hm3 by done.
    unfold mt in Hm3. destruct (load c3 (Buf i)) as [z|]; [|done].
    exists z. split; [done|]. simpl in Hm3. congruence. }
  assert (valid z = valid y ∧ locked (lock z) = false) as [Ev El].
  { apply (f_equal valid) in Ez as Ev. apply (f_equal lock) in Ez as El.
    simpl in Ev, El. rewrite El. done. }
  assert (spin c3 = false) as Hs3' by (rewrite Hs3; apply (inv_spin _ _ HI2)).
  assert (cache_map c3 !! (d, bn) = Some (Buf i)) as Hmap3'
    by (by rewrite Hmap3, Hmap2).
  pose proof (bget_hit pid d bn c3 (Buf i) z Hs3' Hmap3' ltac:(done) Hz) as Hg.
  rewrite El in Hg.
  exists (store (hit_state (Buf i) z c3) (Buf i)
            (set_lock (mksleeplock true pid) (pinned z))).
  split; [done|]. split.
  - unfold bread, bind. rewrite Hg.
    erewrite bread_fill_run;
      [|apply (load_store_eq _ _ (pinned z)); unfold hit_state;
        rewrite load_set_spin; by apply (load_store_eq _ _ z)].
    simpl. rewrite Ev. by destruct (Z.eqb_spec (valid y) 0).
  - done.
Qed.

Lemma bread_transfers_witness :
  ∃ c2 y,
    bread 1 1%N 1%N booted = Ret (Buf 0) c2
    ∧ load c2 (Buf 0) = Some y ∧ valid y ≠ 0
    ∧ ∃ c3 c4,
        brelse 1 (Buf 0) c2 = Ret tt c3
        ∧ bread 1 1%N 1%N c3 = Ret (Buf 0) c4
        ∧ io c4 = io c3 ∧ disk c4 = disk c3.
Proof.
  assert (running [] booted) as Hr.
  { destruct (binit_run (boot 2 ∅)) as (c & Hc & _).
    assert (c = booted) as <- by (unfold booted; by rewrite Hc).
    by apply (run_boot 2 ∅). }
  destruct (bread_transfers [] 1%nat 1%N 1%N booted (Buf 0)
              (default (boot 0 ∅) (state_of (bget 1 1%N 1%N booted)))
              (buf_at (default (boot 0 ∅) (state_of (bget 1 1%N 1%N booted))) 0)
              Hr)
    as (c2 & y & H1 & _ & _ & H2 & H3 & H4).
  - vm_compute. reflexivity.
  - vm_compute. reflexivity.
  - exists c2, y. done.
Defined.

(** The call panicked. *)
Definition is_panic {A} (o : outcome A) : Prop := ∃ msg c, o = Panic msg c.

(** C8. [bwrite] and [brelse] panic exactly when the caller does not hold
    the content lock of the buffer, and then leave the state as it was (no
    transfer, no change of a reference count or of the list); [bunpin]
    panics exactly when the reference count of the buffer is zero. *)
Theorem protocol_violations pid i x c l :
  spin c = false → dll c l → load c (Buf i) = Some x →
  (is_panic (bwrite pid (Buf i) c) ↔ holding pid x = false)
  ∧ (holding pid x = false → bwrite pid (Buf i) c = Panic "bwrite" c)
  ∧ (is_panic (brelse pid (Buf i) c) ↔ holding pid x = false)
  ∧ (holding pid x = false → brelse pid (Buf i) c = Panic "brelse" c)
  ∧ (is_panic (bunpin (Buf i) c) ↔ refcnt x = 0%N).
Proof.
  intros Hs Hdll Hx. split_and!.
  - split.
    + intros (msg & c' & E). destruct (holding pid x) eqn:Hh; [|done].
      by rewrite (bwrite_run _ _ _ _ Hx Hh) in E.
    + intros Hh. rewrite (bwrite_panic _ _ _ _ Hx Hh). by eexists _, _.
  - by apply bwrite_panic.
  - split.
    + intros (msg & c' & E). destruct (holding pid x) eqn:Hh; [|done].
      destruct (brelse_run pid i x c l Hs Hx Hh Hdll) as (c'' & E' & _).
      by rewrite E' in E.
    + intros Hh. rewrite (brelse_panic _ _ _ _ Hx Hh). by eexists _, _.
  - by apply brelse_panic.
  - rewrite (bunpin_run _ _ _ Hs Hx). split.
    + intros (msg & c' & E). destruct (N.eqb_spec (refcnt x) 0); done.
    + intros ->. by eexists _, _.
Qed.

Lemma protocol_violations_witness :
  bwrite 2 (Buf 0) one_read = Panic "bwrite" one_read
  ∧ brelse 2 (Buf 0) one_read = Panic "brelse" one_read
  ∧ ¬ is_panic (bunpin (Buf 0) one_read).
Proof.
  destruct (protocol_violations 2 0 (buf_at one_read 0) one_read
              [1%nat; 0%nat]) as (_ & H1 & _ & H2 & H3).
  - reflexivity.
  - apply dllb_dll. vm_compute. reflexivity.
  - vm_compute. reflexivity.
  - split_and!.
    + by apply H1.
    + by apply H2.
    + intros E%H3. done.
Defined.

(** C9. For a buffer whose content lock the caller holds, [bwrite] returns
    with the pool (reference counts, links, validity, device and block
    numbers, content locks), the list head, the hash map, the cache lock
    and the recorded size as they were; the device has the payload of the
    buffer at its block, and this one write was recorded. *)
Theorem bwrite_frame pid b x c :
  load c b = Some x → holding pid x = true →
  ∃ c', bwrite pid b c = Ret tt c'
    ∧ bufs c' = bufs c ∧ head c' = head c ∧ cache_map c' = cache_map c
    ∧ spin c' = spin c ∧ cache_size c' = cache_size c
    ∧ disk c' = <[buf_key x := data x]> (disk c)
    ∧ io c' = IoWrite (buf_key x) (data x) :: io c.
Proof.
  intros Hx Hh. exists (written x c). split; [by apply bwrite_run|]. done.
Qed.

Lemma bwrite_frame_witness :
  ∃ c', bwrite 1 (Buf 0) one_read = Ret tt c'
    ∧ bufs c' = bufs one_read ∧ cache_map c' = cache_map one_read
    ∧ io c' = IoWrite (1%N, 1%N) [] :: io one_read.
Proof.
  destruct (bwrite_frame 1 (Buf 0) (buf_at one_read 0) one_read)
    as (c' & H1 & H2 & _ & H3 & _ & _ & _ & H4).
  - vm_compute. reflexivity.
  - reflexivity.
  - exists c'. done.
Defined.

(** C10. For every [size], [set_cache_size] changes the recorded size and
    nothing else: the pool and its length, the list head, the hash map, the
    device and the cache lock are as they were. *)
Theorem set_cache_size_frame size c :
  spin c = false →
  ∃ c', set_cache_size size c = Ret tt c'
    ∧ cache_size c' = size
    ∧ bufs c' = bufs c ∧ NBUF c' = NBUF c ∧ head c' = head c
    ∧ cache_map c' = cache_map c ∧ spin c' = spin c
    ∧ disk c' = disk c ∧ io c' = io c.
Proof.
  intros Hs. exists (set_size size c).
  split; [by apply set_cache_size_run|]. done.
Qed.

Lemma set_cache_size_frame_witness :
  ∃ c', set_cache_size 4096 booted = Ret tt c'
    ∧ cache_size c' = 4096 ∧ bufs c' = bufs booted ∧ NBUF c' = 2%nat.
Proof.
  destruct (set_cache_size_frame 4096 booted) as (c' & H1 & H2 & H3 & H4 & _).
  - reflexivity.
  - exists c'. split_and!; try done.
Defined.

(** ** Further properties of the operations *)

Lemma store_id c p x : load c p = Some x → store c p x = c.
Proof.
  destruct p as [| |i]; simpl; intros H.
  - done.
  - injection H as <-. by destruct c.
  - unfold set_bufs. rewrite list_insert_id by done. by destruct c.
Qed.

Lemma bufs_store_ne c i y j :
  j ≠ i → bufs (store c (Buf i) y) !! j = bufs c !! j.
Proof. intros H. simpl. by apply list_lookup_insert_ne. Qed.

(** The eviction path of [bget]. When the block is not in the hash map and
    [bget] returns, the buffer it returns had a zero reference count and a
    free content lock; it now carries the block's device and number, is
    marked not valid, has one reference, and its content lock is held by the
    caller; its payload is what it was. The hash map has gained the block's
    entry and nothing else of the state has changed. *)
Theorem bget_miss_fields pid d bn c l b c' :
  spin c = false → dll c l → cache_map c !! (d, bn) = None →
  bget pid d bn c = Ret b c' →
  ∃ i x y,
    b = Buf i ∧ load c b = Some x ∧ refcnt x = 0%N ∧ locked (lock x) = false
    ∧ load c' b = Some y
    ∧ dev y = d ∧ blockno y = bn ∧ valid y = 0 ∧ refcnt y = 1%N
    ∧ lock y = mksleeplock true pid
    ∧ data y = data x ∧ prev y = prev x ∧ next y = next x
    ∧ cache_map c' = <[(d, bn) := b]> (cache_map c)
    ∧ (∀ j, j ≠ i → bufs c' !! j = bufs c !! j)
    ∧ head c' = head c ∧ spin c' = false ∧ cache_size c' = cache_size c
    ∧ disk c' = disk c ∧ io c' = io c.
Proof.
  intros Hs Hdll Hm.
  destruct (scan_split c l) as [Hb|(l1 & v & xv & l2 & -> & Hv & Hz & Hb)].
  - intros j Hj. by apply (dll_valid c l).
  - rewrite (bget_miss_none pid d bn c l); try done. by rewrite Hm.
  - rewrite (bget_miss_found pid d bn c l1 v xv l2); try done;
      [|by rewrite Hm].
    destruct (locked (lock xv)) eqn:Hl; [done|]. intros E.
    assert (b = Buf v ∧ c' = store (recycle_state d bn (Buf v) xv c) (Buf v)
              (set_lock (mksleeplock true pid) (recycled d bn xv)))
      as [-> ->] by (by injection E).
    clear E.
    exists v, xv, (set_lock (mksleeplock true pid) (recycled d bn xv)).
    split_and!; try done.
    + apply (load_store_eq _ _ (recycled d bn xv)). unfold recycle_state.
      rewrite load_set_spin, load_set_cache_map.
      by apply (load_store_eq _ _ xv).
    + intros j Hj. simpl. by rewrite !list_lookup_insert_ne by done.
Qed.

Lemma bget_miss_fields_witness :
  ∃ y, load (after (bget 1 1%N 7%N) booted) (Buf 0) = Some y
       ∧ buf_key y = (1%N, 7%N) ∧ valid y = 0 ∧ refcnt y = 1%N.
Proof.
  destruct (bget_miss_fields 1 1%N 7%N booted [1%nat; 0%nat] (Buf 0)
              (after (bget 1 1%N 7%N) booted))
    as (i & x & y & Hb & _ & _ & _ & Hy & Hd & Hbn & Hv & Hr & _).
  - reflexivity.
  - apply dllb_dll. vm_compute. reflexivity.
  - vm_compute. reflexivity.
  - vm_compute. reflexivity.
  - exists y. split_and!; try done. unfold buf_key. by rewrite Hd, Hbn.
Defined.

(** The hit path of [bget]. When the hash map has an entry for the block and
    the content lock of the buffer is free, [bget] returns that buffer with
    one more reference (modulo 2^32) and its content lock held by the
    caller; it does not look at the device or block number of the buffer,
    and leaves them, the validity flag, the payload and the links as they
    were, like every other buffer, the hash map and the device. *)
Theorem bget_hit_fields pid d bn c i x :
  spin c = false → cache_map c !! (d, bn) = Some (Buf i) →
  load c (Buf i) = Some x → locked (lock x) = false →
  ∃ c' y,
    bget pid d bn c = Ret (Buf i) c' ∧ load c' (Buf i) = Some y
    ∧ refcnt y = uint_inc (refcnt x) ∧ lock y = mksleeplock true pid
    ∧ dev y = dev x ∧ blockno y = blockno x ∧ valid y = valid x
    ∧ data y = data x ∧ prev y = prev x ∧ next y = next x
    ∧ (∀ j, j ≠ i → bufs c' !! j = bufs c !! j)
    ∧ cache_map c' = cache_map c ∧ head c' = head c ∧ spin c' = false
    ∧ cache_size c' = cache_size c ∧ disk c' = disk c ∧ io c' = io c.
Proof.
  intros Hs Hm Hx Hl.
  rewrite (bget_hit pid d bn c (Buf i) x Hs Hm ltac:(done) Hx), Hl.
  eexists _, (set_lock (mksleeplock true pid) (pinned x)).
  split; [done|]. split_and!; try done.
  - apply (load_store_eq _ _ (pinned x)). unfold hit_state.
    rewrite load_set_spin. by apply (load_store_eq _ _ x).
  - intros j Hj. simpl. by rewrite !list_lookup_insert_ne by done.
Qed.

Lemma bget_hit_fields_witness :
  ∃ c' y, bget 1 0%N 0%N booted = Ret (Buf 1) c'
          ∧ load c' (Buf 1) = Some y ∧ refcnt y = 1%N
          ∧ cache_map c' = cache_map booted.
Proof.
  destruct (bget_hit_fields 1 0%N 0%N booted 1 (buf_at booted 1))
    as (c' & y & H1 & H2 & H3 & _ & _ & _ & _ & _ & _ & _ & _ & H4 & _).
  - reflexivity.
  - vm_compute. reflexivity.
  - vm_compute. reflexivity.
  - reflexivity.
  - exists c', y. split_and!; try done.
Defined.

(** The recency list stays well formed: in every state of the running
    kernel the [next] pointers lead from the head through every buffer of
    the pool exactly once and back to the head, and the [prev] pointers lead
    the same way back. *)
Theorem running_dll hs c :
  running hs c →
  ∃ l, NoDup l ∧ (∀ i, i ∈ l ↔ (i < NBUF c)%nat)
       ∧ path c Head (Buf <$> l) Head.
Proof. intros HI%running_Inv. exact (inv_dll _ _ HI). Qed.

Lemma running_booted : running [] booted.
Proof.
  destruct (binit_run (boot 2 ∅)) as (c & Hc & _).
  assert (c = booted) as <- by (unfold booted; by rewrite Hc).
  by apply (run_boot 2 ∅).
Qed.

Lemma running_dll_witness :
  ∃ l, NoDup l ∧ (∀ i, i ∈ l ↔ (i < NBUF booted)%nat)
       ∧ path booted Head (Buf <$> l) Head.
Proof. exact (running_dll [] booted running_booted). Defined.

(** The call returned, put its caller to sleep, or panicked. *)
Definition completes {A} (o : outcome A) : Prop :=
  match o with
  | Ret _ _ | Sleep _ _ | Panic _ _ => True
  | Spin _ | Fault | Diverge => False
  end.

(** No call of a running kernel goes wrong: it never dereferences a pointer
    that designates nothing, the scan of [bget] ends within [NBUF] buffers,
    and the cache lock is free when the call wants it. *)
Theorem exec_completes hs c o :
  running hs c → args_ok hs o → completes (exec o c).
Proof.
  intros HI%running_Inv Hargs. pose proof (inv_spin _ _ HI) as Hs.
  destruct (inv_dll _ _ HI) as [l Hdll].
  assert (∀ pid d bn, completes (bget pid d bn c)
            ∧ ∀ b c1, bget pid d bn c = Ret b c1 →
                ∃ c2, bread_fill b c1 = Ret b c2) as Hget.
  { intros pid d bn. split.
    - destruct (bget_cases pid d bn c l Hs Hdll (Inv_index_valid _ _ HI))
        as [(b & x & _ & _ & ->)|[(_ & l1 & v & xv & l2 & _ & _ & _ & _ & ->)
                                  |(_ & _ & ->)]]; [| |done];
        unfold lock_or_sleep; by destruct (locked _).
    - intros b c1 Hg.
      pose proof (bget_inv hs c pid d bn HI) as HI1. rewrite Hg in HI1.
      destruct (bread_fill_inv (b :: hs) c1 b HI1) as (c2 & E & _);
        [set_solver|]. eauto. }
  destruct o as [|pid d bn|pid d bn|pid b|pid b|b|b|size|pid b|pid b];
    unfold exec, args_ok in *; simpl in Hargs.
  - destruct (binit_run c) as (c' & Hrun & _). unfold bind. by rewrite Hrun.
  - destruct (Hget pid d bn) as [H _]. unfold bind.
    by destruct (bget pid d bn c).
  - destruct (Hget pid d bn) as [H H']. unfold bread, bind.
    destruct (bget pid d bn c) as [b c1| | | | |]; try done.
    destruct (H' b c1 eq_refl) as (c2 & ->). done.
  - specialize (Hargs b eq_refl).
    destruct (Inv_index_load hs c b HI) as (i & x & -> & Hx);
      [by apply (inv_handles _ _ HI)|].
    unfold bind. destruct (holding pid x) eqn:Hh.
    + by rewrite (bwrite_run _ _ _ _ Hx Hh).
    + by rewrite (bwrite_panic _ _ _ _ Hx Hh).
  - specialize (Hargs b eq_refl).
    destruct (Inv_index_load hs c b HI) as (i & x & -> & Hx);
      [by apply (inv_handles _ _ HI)|].
    unfold bind. destruct (holding pid x) eqn:Hh.
    + destruct (brelse_run pid i x c l Hs Hx Hh Hdll) as (c' & -> & _). done.
    + by rewrite (brelse_panic _ _ _ _ Hx Hh).
  - specialize (Hargs b eq_refl).
    destruct (Inv_index_load hs c b HI) as (i & x & -> & Hx);
      [by apply (inv_handles _ _ HI)|].
    unfold bind. by rewrite (bpin_run _ _ _ Hs Hx).
  - specialize (Hargs b eq_refl).
    destruct (Inv_index_load hs c b HI) as (i & x & -> & Hx);
      [by apply (inv_handles _ _ HI)|].
    unfold bind. rewrite (bunpin_run _ _ _ Hs Hx).
    by destruct (refcnt x =? 0)%N.
  - unfold bind. by rewrite (set_cache_size_run _ _ Hs).
  - specialize (Hargs b eq_refl).
    destruct (Inv_index_load hs c b HI) as (i & x & -> & Hx);
      [by apply (inv_handles _ _ HI)|].
    unfold bind. rewrite (acquiresleep_run _ _ _ _ Hx).
    by destruct (locked (lock x)).
  - specialize (Hargs b eq_refl).
    pose proof (inv_handles _ _ HI b Hargs) as Hin.
    destruct (Inv_index_load hs c b HI Hin) as (i & x & -> & Hx).
    unfold bind. rewrite (acquiresleep_run _ _ _ _ Hx).
    destruct (locked (lock x)); [done|].
    assert (Inv hs (store c (Buf i) (set_lock (mksleeplock true pid) x)))
      as HI1.
    { apply (Inv_store_meta hs _ c _ i x
               (set_lock (mksleeplock true pid) x)); try done. set_solver. }
    destruct (bread_fill_inv hs _ (Buf i) HI1 Hargs) as (c2 & -> & _). done.
Qed.

Lemma exec_completes_witness : completes (exec (Bread 1 1%N 1%N) booted).
Proof.
  apply (exec_completes [] booted (Bread 1 1%N 1%N) running_booted).
  intros b Hb. done.
Defined.

(** Every call that returns or puts its caller to sleep leaves the cache
    lock free: no caller sleeps on a content lock while it holds the cache
    lock. *)
Theorem cache_lock_released hs c o :
  running hs c → args_ok hs o →
  match exec o c with
  | Ret _ c' | Sleep _ c' => spin c' = false
  | _ => True
  end.
Proof.
  intros HI%running_Inv Hargs. pose proof (exec_inv hs c o HI Hargs) as H.
  destruct (exec o c); simpl in H; try done; apply (inv_spin _ _ H).
Qed.

Lemma cache_lock_released_witness :
  match exec (Bget 2 1%N 1%N) one_read with
  | Ret _ c' | Sleep _ c' => spin c' = false
  | _ => True
  end.
Proof.
  apply (cache_lock_released [Buf 0] one_read (Bget 2 1%N 1%N)).
  - apply (run_ret [] booted (Bread 1 1%N 1%N) (Some (Buf 0)) one_read).
    + exact running_booted.
    + intros b Hb. done.
    + vm_compute. reflexivity.
  - intros b Hb. done.
Defined.

(** A referenced buffer is never recycled: whatever block a [bget] of the
    running kernel is asked for, a buffer whose reference count is not zero
    keeps its device, block number, validity flag and payload. A pin is
    such a reference. *)
Theorem referenced_not_recycled hs c pid d bn j x c' :
  running hs c → load c (Buf j) = Some x → refcnt x ≠ 0%N →
  state_of (bget pid d bn c) = Some c' →
  ∃ y, load c' (Buf j) = Some y
       ∧ dev y = dev x ∧ blockno y = blockno x ∧ valid y = valid x
       ∧ data y = data x.
Proof.
  intros HI%running_Inv Hx Hr.
  destruct (inv_dll _ _ HI) as [l Hdll].
  destruct (bget_cases pid d bn c l (inv_spin _ _ HI) Hdll
              (Inv_index_valid _ _ HI))
    as [(b & x0 & Hm & Hx0 & ->)|[(Hm & l1 & v & xv & l2 & -> & Hv & Hz & Hb & ->)
                                  |(Hm & Hb & ->)]].
  - destruct (Inv_index_load hs c b HI) as (i & x' & -> & _);
      [by exists (d, bn)|].
    assert (load (hit_state (Buf i) x0 c) (Buf i) = Some (pinned x0)) as Hi.
    { unfold hit_state. rewrite load_set_spin.
      by apply (load_store_eq _ _ x0). }
    assert (∃ y, load (hit_state (Buf i) x0 c) (Buf j) = Some y
                 ∧ dev y = dev x ∧ blockno y = blockno x ∧ valid y = valid x
                 ∧ data y = data x) as (y & Hy & ? & ? & ? & ?).
    { unfold hit_state. rewrite load_set_spin, (load_store _ _ _ _ _ Hx0).
      case_decide as E; [|eauto 8].
      injection E as ->. assert (x0 = x) as -> by congruence. eauto 8. }
    unfold lock_or_sleep. destruct (locked (lock (pinned x0)));
      cbn [state_of]; intros E; apply (inj Some) in E; subst c'.
    + eauto 8.
    + rewrite (load_store _ _ _ _ _ Hi). case_decide as E; [|eauto 8].
      injection E as ->. rewrite Hi in Hy. injection Hy as <-.
      eexists. split; [done|]. done.
  - assert (j ≠ v) as Hjv by (intros ->; congruence).
    assert (load (recycle_state d bn (Buf v) xv c) (Buf j) = Some x) as Hl.
    { unfold recycle_state.
      rewrite load_set_spin, load_set_cache_map, (load_store _ _ _ _ _ Hv).
      rewrite decide_False; [done|congruence]. }
    assert (load (recycle_state d bn (Buf v) xv c) (Buf v)
            = Some (recycled d bn xv)) as Hlv.
    { unfold recycle_state. rewrite load_set_spin, load_set_cache_map.
      by apply (load_store_eq _ _ xv). }
    unfold lock_or_sleep. destruct (locked (lock (recycled d bn xv)));
      cbn [state_of]; intros E; apply (inj Some) in E; subst c'.
    + eauto 8.
    + rewrite (load_store _ _ _ _ _ Hlv).
      rewrite decide_False; [eauto 8|congruence].
  - cbn [state_of]. intros E. apply (inj Some) in E. subst c'. eauto 8.
Qed.

Lemma referenced_not_recycled_witness :
  ∃ y, load (after (bget 2 1%N 2%N) one_read) (Buf 0) = Some y
       ∧ dev y = 1%N ∧ blockno y = 1%N ∧ valid y = 1.
Proof.
  destruct (referenced_not_recycled [Buf 0] one_read 2 1%N 2%N 0
              (buf_at one_read 0) (after (bget 2 1%N 2%N) one_read))
    as (y & Hy & H1 & H2 & H3 & _).
  - apply (run_ret [] booted (Bread 1 1%N 1%N) (Some (Buf 0)) one_read).
    + exact running_booted.
    + intros b Hb. done.
    + vm_compute. reflexivity.
  - vm_compute. reflexivity.
  - vm_compute. discriminate.
  - vm_compute. reflexivity.
  - exists y. split_and!; assumption.
Defined.

Lemma bread_fill_map b c1 c2 :
  state_of (bread_fill b c1) = Some c2 → cache_map c2 = cache_map c1.
Proof.
  destruct (load c1 b) as [x|] eqn:El.
  - rewrite (bread_fill_run _ _ _ El).
    destruct (valid x =? 0); cbn [state_of]; intros E;
      apply (inj Some) in E; subst c2; [|done].
    unfold filled. by destruct b.
  - unfold bread_fill, bind, rd. by rewrite El.
Qed.

Lemma bget_map hs c pid d bn c1 :
  Inv hs c → state_of (bget pid d bn c) = Some c1 →
  ∀ k p, cache_map c !! k = Some p → cache_map c1 !! k = Some p.
Proof.
  intros HI. destruct (inv_dll _ _ HI) as [l Hdll].
  destruct (bget_cases pid d bn c l (inv_spin _ _ HI) Hdll
              (Inv_index_valid _ _ HI))
    as [(b & x & Hm & Hx & ->)|[(Hm & l1 & v & xv & l2 & _ & Hv & _ & _ & ->)
                                |(Hm & _ & ->)]].
  - destruct (Inv_index_load hs c b HI) as (i & x' & -> & _);
      [by exists (d, bn)|].
    unfold lock_or_sleep. destruct (locked _); cbn [state_of]; intros E;
      apply (inj Some) in E; subst c1; intros k p Hk; exact Hk.
  - unfold lock_or_sleep. destruct (locked _); cbn [state_of]; intros E;
      apply (inj Some) in E; subst c1; intros k p Hk;
      change (<[(d, bn) := Buf v]> (cache_map c) !! k = Some p);
      (rewrite lookup_insert_ne; [done|congruence]).
  - cbn [state_of]. intros E. apply (inj Some) in E. by subst c1.
Qed.

(** The hash map only grows between two [binit]: no call other than
    [binit] removes an entry or changes the buffer of a key. An entry whose
    buffer has been recycled for another block stays. *)
Theorem index_entries_stay hs c o c' :
  running hs c → args_ok hs o → o ≠ Binit →
  state_of (exec o c) = Some c' →
  ∀ k p, cache_map c !! k = Some p → cache_map c' !! k = Some p.
Proof.
  intros HI%running_Inv Hargs Ho. pose proof (inv_spin _ _ HI) as Hs.
  destruct (inv_dll _ _ HI) as [l Hdll].
  destruct o as [|pid d bn|pid d bn|pid b|pid b|b|b|size|pid b|pid b];
    [done|..]; unfold exec, args_ok in *; simpl in Hargs; intros E k p Hk.
  - apply (bget_map hs c pid d bn c' HI); [|done].
    unfold bind in E. by destruct (bget pid d bn c).
  - unfold bread, bind in E.
    destruct (bget pid d bn c) as [b c1|?|?|?| |] eqn:Eg;
      try (apply (bget_map hs c pid d bn c' HI); [by rewrite Eg|done]);
      try done.
    assert (state_of (bread_fill b c1) = Some c') as E'
      by (by destruct (bread_fill b c1)).
    rewrite (bread_fill_map _ _ _ E').
    apply (bget_map hs c pid d bn c1 HI); [by rewrite Eg|done].
  - specialize (Hargs b eq_refl).
    destruct (Inv_index_load hs c b HI) as (i & x & -> & Hx);
      [by apply (inv_handles _ _ HI)|].
    unfold bind in E. destruct (holding pid x) eqn:Hh.
    + rewrite (bwrite_run _ _ _ _ Hx Hh) in E. cbn [state_of] in E.
      apply (inj Some) in E. by subst c'.
    + rewrite (bwrite_panic _ _ _ _ Hx Hh) in E. cbn [state_of] in E.
      apply (inj Some) in E. by subst c'.
  - specialize (Hargs b eq_refl).
    destruct (Inv_index_load hs c b HI) as (i & x & -> & Hx);
      [by apply (inv_handles _ _ HI)|].
    unfold bind in E. destruct (holding pid x) eqn:Hh.
    + destruct (brelse_run pid i x c l Hs Hx Hh Hdll)
        as (c1 & E1 & (_ & Hmap & _) & _).
      rewrite E1 in E. cbn [state_of ret] in E. apply (inj Some) in E.
      subst c'. by rewrite Hmap.
    + rewrite (brelse_panic _ _ _ _ Hx Hh) in E. cbn [state_of] in E.
      apply (inj Some) in E. by subst c'.
  - specialize (Hargs b eq_refl).
    destruct (Inv_index_load hs c b HI) as (i & x & -> & Hx);
      [by apply (inv_handles _ _ HI)|].
    unfold bind in E. rewrite (bpin_run _ _ _ Hs Hx) in E.
    cbn [state_of ret] in E. apply (inj Some) in E. by subst c'.
  - specialize (Hargs b eq_refl).
    destruct (Inv_index_load hs c b HI) as (i & x & -> & Hx);
      [by apply (inv_handles _ _ HI)|].
    unfold bind in E. rewrite (bunpin_run _ _ _ Hs Hx) in E.
    destruct (refcnt x =? 0)%N; cbn [state_of ret] in E;
      apply (inj Some) in E; by subst c'.
  - unfold bind in E. rewrite (set_cache_size_run _ _ Hs) in E.
    cbn [state_of ret] in E. apply (inj Some) in E. by subst c'.
  - specialize (Hargs b eq_refl).
    destruct (Inv_index_load hs c b HI) as (i & x & -> & Hx);
      [by apply (inv_handles _ _ HI)|].
    unfold bind in E. rewrite (acquiresleep_run _ _ _ _ Hx) in E.
    destruct (locked (lock x)); cbn [state_of ret] in E;
      apply (inj Some) in E; by subst c'.
  - specialize (Hargs b eq_refl).
    destruct (Inv_index_load hs c b HI) as (i & x & -> & Hx);
      [by apply (inv_handles _ _ HI)|].
    unfold bind in E. rewrite (acquiresleep_run _ _ _ _ Hx) in E.
    destruct (locked (lock x)).
    + cbn [state_of] in E. apply (inj Some) in E. by subst c'.
    + set (c1 := store c (Buf i) (set_lock (mksleeplock true pid) x)) in *.
      assert (state_of (bread_fill (Buf i) c1) = Some c') as E'
        by (by destruct (bread_fill (Buf i) c1)).
      by rewrite (bread_fill_map _ _ _ E').
Qed.

Lemma index_entries_stay_witness :
  cache_map (after (exec (Bread 1 1%N 1%N)) booted) !! (0%N, 0%N)
  = Some (Buf 1).
Proof.
  apply (index_entries_stay [] booted (Bread 1 1%N 1%N)).
  - exact running_booted.
  - intros b Hb. done.
  - done.
  - vm_compute. reflexivity.
  - vm_compute. reflexivity.
Defined.

Lemma uint_dec_inc n : (n < UINT_MOD - 1)%N → uint_dec (uint_inc n) = n.
Proof.
  unfold uint_dec, uint_inc, UINT_MOD. intros H.
  rewrite (N.mod_small (n + 1)) by lia.
  replace (n + 1 + (4294967296 - 1))%N with (n + 1 * 4294967296)%N by lia.
  rewrite N.Div0.mod_add. apply N.mod_small. lia.
Qed.

Lemma uint_inc_nonzero n : (n < UINT_MOD - 1)%N → uint_inc n ≠ 0%N.
Proof.
  unfold uint_inc, UINT_MOD. intros H.
  rewrite (N.mod_small (n + 1)) by lia. lia.
Qed.

(** A pin and the matching unpin cancel: after [bpin] and [bunpin] of the
    same buffer the state is what it was, as long as the count has room
    for one more reference. *)
Theorem bpin_bunpin b x c :
  spin c = false → load c b = Some x → (refcnt x < UINT_MOD - 1)%N →
  (_ <- bpin b;; bunpin b) c = Ret tt c.
Proof.
  intros Hs Hx Hr. unfold bind. rewrite (bpin_run _ _ _ Hs Hx).
  assert (load (hit_state b x c) b = Some (pinned x)) as H1.
  { unfold hit_state. rewrite load_set_spin. by apply (load_store_eq _ _ x). }
  assert (spin (hit_state b x c) = false) as Hs1 by done.
  rewrite (bunpin_run _ _ _ Hs1 H1).
  assert (refcnt (pinned x) ≠ 0%N) as Hnz by (by apply uint_inc_nonzero).
  apply N.eqb_neq in Hnz. rewrite Hnz. f_equal.
  unfold unpinned, hit_state. rewrite store_set_spin.
  assert (set_refcnt (uint_dec (refcnt (pinned x))) (pinned x) = x) as ->.
  { unfold pinned. simpl. rewrite uint_dec_inc by done. by destruct x. }
  rewrite (store_id _ _ _ Hx). destruct c. simpl in *. by subst.
Qed.

Lemma bpin_bunpin_witness :
  (_ <- bpin (Buf 0);; bunpin (Buf 0)) one_read = Ret tt one_read.
Proof.
  apply (bpin_bunpin (Buf 0) (buf_at one_read 0) one_read).
  - reflexivity.
  - vm_compute. reflexivity.
  - vm_compute. reflexivity.
Defined.

(** [binit] on any memory. It builds the list [NBUF-1, ..., 0], records the
    default size and initialises the locks, and it leaves the device, block
    number, validity flag, reference count and payload of every buffer as
    it finds them. The hash map it builds maps each key some buffer carries
    to the last buffer of the pool that carries it, and has no other
    entry. *)
Theorem binit_any_memory c :
  ∃ c',
    binit c = Ret tt c'
    ∧ dll c' (rev (seq 0 (NBUF c)))
    ∧ cache_size c' = DEFAULT_NBUF ∧ spin c' = false
    ∧ disk c' = disk c ∧ io c' = io c
    ∧ (∀ i x, bufs c !! i = Some x →
         ∃ y, bufs c' !! i = Some y ∧ lock y = mksleeplock false 0
              ∧ dev y = dev x ∧ blockno y = blockno x ∧ valid y = valid x
              ∧ refcnt y = refcnt x ∧ data y = data x)
    ∧ (∀ k p, cache_map c' !! k = Some p ↔
         ∃ j x, p = Buf j ∧ bufs c !! j = Some x ∧ buf_key x = k
                ∧ ∀ j' y, bufs c !! j' = Some y → buf_key y = k → (j' ≤ j)%nat).
Proof.
  destruct (binit_run c) as (c' & Hrun & Hdll & Hm & Hmap & Hs & Hz & Hd & Hio & _).
  exists c'. split_and!; try done.
  - intros i x Hx. specialize (Hm (Buf i)). unfold mt_init in Hm.
    rewrite decide_True in Hm by lia. unfold mt in Hm. simpl in Hm.
    rewrite Hx in Hm. destruct (bufs c' !! i) as [y|]; [|done].
    assert (meta y = set_lock lock0 (meta x)) as Ey
      by (simpl in Hm; congruence).
    exists y. split; [done|]. split_and!.
    + apply (f_equal lock) in Ey. exact Ey.
    + apply (f_equal dev) in Ey. exact Ey.
    + apply (f_equal blockno) in Ey. exact Ey.
    + apply (f_equal valid) in Ey. exact Ey.
    + apply (f_equal refcnt) in Ey. exact Ey.
    + apply (f_equal data) in Ey. exact Ey.
  - intros k p. rewrite Hmap, put_keys_lookup.
    assert (∀ j, keys c !! j = Some k ↔
                 ∃ x, bufs c !! j = Some x ∧ buf_key x = k) as Hk.
    { intros j. unfold keys. rewrite list_lookup_fmap.
      destruct (bufs c !! j) as [x|]; simpl; [|naive_solver].
      split; [intros [= <-]; eauto|]. intros (x' & [= <-] & <-). done. }
    split.
    + intros [(j & -> & Hj & Hmax)|[_ ?]]; [|done].
      apply Hk in Hj as (x & Hx & Hkx). exists j, x. split_and!; try done.
      intros j' y Hy Hky. apply Hmax, Hk. eauto.
    + intros (j & x & -> & Hx & Hkx & Hmax). left. exists j.
      split_and!; try done; [apply Hk; eauto|].
      intros j' (y & Hy & Hky)%Hk. by apply (Hmax j' y).
Qed.

(** The first calls after boot. [bget] for the block (0, 0) finds the entry
    [binit] made for the zeroed buffers and takes the last buffer of the
    pool, without recycling anything; [bget] for any other block recycles
    buffer 0, the least recently used end of the list [binit] builds. *)
Theorem first_bget_after_boot n dsk pid d bn c :
  (0 < n)%nat → binit (boot n dsk) = Ret tt c →
  victim (bget pid 0%N 0%N c) = Some (Buf (n - 1))
  ∧ ((d, bn) ≠ (0%N, 0%N) → victim (bget pid d bn c) = Some (Buf 0)).
Proof.
  intros Hn Hrun.
  destruct (binit_run (boot n dsk))
    as (c' & Hrun' & Hdll & Hm & Hmap & Hs & _ & _ & _ & HN).
  assert (c' = c) as -> by congruence. clear Hrun'.
  assert (NBUF (boot n dsk) = n) as HN0.
  { unfold NBUF. simpl. by rewrite length_replicate. }
  rewrite HN0 in *.
  assert (cache_map c = {[ (0%N, 0%N) := Buf (n - 1) ]}) as Hmap'.
  { rewrite Hmap, keys_boot. destruct n as [|m]; [lia|].
    rewrite put_keys_replicate, insert_empty.
    replace (S m - 1)%nat with (0 + m)%nat by lia. done. }
  assert (∀ i, (i < n)%nat →
            ∃ y, load c (Buf i) = Some y ∧ refcnt y = 0%N
                 ∧ locked (lock y) = false) as Hbuf.
  { intros i Hi. specialize (Hm (Buf i)). unfold mt_init in Hm.
    rewrite decide_True in Hm by lia. unfold mt in Hm. simpl in Hm.
    rewrite lookup_replicate_2 in Hm by done.
    destruct (bufs c !! i) as [y|] eqn:E; [|done].
    assert (meta y = set_lock lock0 (meta buf0)) as Ey
      by (simpl in Hm; congruence).
    exists y. split; [done|]. split.
    + apply (f_equal refcnt) in Ey. exact Ey.
    + apply (f_equal (λ z, locked (lock z))) in Ey. exact Ey. }
  split.
  - destruct (Hbuf (n - 1)%nat) as (y & Hy & _ & Hl); [lia|].
    rewrite (bget_hit pid 0%N 0%N c (Buf (n - 1)) y Hs); try done.
    + by rewrite Hl.
    + rewrite Hmap'. apply lookup_singleton_eq.
  - intros Hne. destruct (Hbuf 0%nat) as (y & Hy & Hr & Hl); [lia|].
    assert (rev (seq 0 n) = rev (seq 1 (n - 1)) ++ [0%nat]) as El.
    { destruct n as [|m]; [lia|]. simpl. by rewrite Nat.sub_0_r. }
    rewrite El in Hdll.
    rewrite (bget_miss_found pid d bn c (rev (seq 1 (n - 1))) 0 y []);
      try done.
    + by rewrite Hl.
    + rewrite Hmap', lookup_singleton_ne; [done|congruence].
    + intros j Hj. by apply elem_of_nil in Hj.
Qed.

Lemma first_bget_after_boot_witness :
  victim (bget 1 0%N 0%N booted) = Some (Buf 1)
  ∧ victim (bget 1 1%N 5%N booted) = Some (Buf 0).
Proof.
  destruct (first_bget_after_boot 2 ∅ 1 1%N 5%N booted) as [H1 H2].
  - lia.
  - vm_compute. reflexivity.
  - split; [exact H1|]. apply H2. discriminate.
Defined.

Lemma running_bread hs c pid d bn b c1 :
  running hs c → bread pid d bn c = Ret b c1 → running (b :: hs) c1.
Proof.
  intros Hr E. apply (run_ret hs c (Bread pid d bn) (Some b) c1 Hr).
  - intros b' Hb'. done.
  - unfold exec, bind. by rewrite E.
Qed.

Lemma running_bget hs c pid d bn b c1 :
  running hs c → bget pid d bn c = Ret b c1 → running (b :: hs) c1.
Proof.
  intros Hr E. apply (run_ret hs c (Bget pid d bn) (Some b) c1 Hr).
  - intros b' Hb'. done.
  - unfold exec, bind. by rewrite E.
Qed.

(** [bread] of a block that is not in the hash map: the buffer it returns
    carries the block's device and number, is valid, and its payload is the
    contents of that block on the device; exactly one read was made, and
    nothing was written. *)
Theorem bread_miss_reads hs pid d bn c b c' :
  running hs c → cache_map c !! (d, bn) = None →
  bread pid d bn c = Ret b c' →
  ∃ y, load c' b = Some y
       ∧ dev y = d ∧ blockno y = bn ∧ valid y = 1
       ∧ data y = default [] (disk c !! (d, bn))
       ∧ lock y = mksleeplock true pid
       ∧ io c' = IoRead (d, bn) :: io c ∧ disk c' = disk c.
Proof.
  intros HI%running_Inv Hm E. unfold bread, bind in E.
  destruct (bget pid d bn c) as [b1 c1| | | | |] eqn:Eg; try done.
  destruct (bget_ret hs c pid d bn b1 c1 HI Eg)
    as (i & y1 & -> & Hy1 & Hl & _ & Hio & Hd & [(x & Hm' & _)|(x & _ & Hx & Hr & -> & _)]);
    [congruence|].
  rewrite (bread_fill_run _ _ _ Hy1) in E. simpl in E.
  assert (b = Buf i ∧ c' = filled (Buf i)
            (set_lock (mksleeplock true pid) (recycled d bn x)) c1)
    as [-> ->] by (by injection E).
  clear E. eexists. split.
  { unfold filled. rewrite load_set_io. by apply (load_store_eq _ _ _ _ Hy1). }
  simpl. unfold buf_key. simpl. rewrite Hd, Hio. done.
Qed.

Lemma bread_miss_reads_witness :
  ∃ y, load one_read (Buf 0) = Some y ∧ dev y = 1%N ∧ blockno y = 1%N
       ∧ valid y = 1 ∧ io one_read = [IoRead (1%N, 1%N)].
Proof.
  destruct (bread_miss_reads [] 1 1%N 1%N booted (Buf 0) one_read)
    as (y & H1 & H2 & H3 & H4 & _ & _ & H5 & _).
  - exact running_booted.
  - vm_compute. reflexivity.
  - vm_compute. reflexivity.
  - exists y. split_and!; assumption.
Defined.

(** The protocol of the header of bio.c goes through: after [bread] has
    returned a buffer, [bwrite] of that buffer by the same process returns
    and leaves the payload of the buffer on the device, at the block the
    buffer carries, and [brelse] then returns too. *)
Theorem bread_bwrite_brelse hs pid d bn c b c1 :
  running hs c → bread pid d bn c = Ret b c1 →
  ∃ y c2 c3,
    load c1 b = Some y
    ∧ bwrite pid b c1 = Ret tt c2
    ∧ disk c2 !! buf_key y = Some (data y)
    ∧ brelse pid b c2 = Ret tt c3
    ∧ disk c3 = disk c2.
Proof.
  intros Hr E. pose proof (running_bread _ _ _ _ _ _ _ Hr E) as Hr1.
  pose proof (running_Inv _ _ Hr) as HI.
  pose proof (running_Inv _ _ Hr1) as HI1.
  unfold bread, bind in E.
  destruct (bget pid d bn c) as [b1 c0| | | | |] eqn:Eg; try done.
  destruct (bget_ret hs c pid d bn b1 c0 HI Eg)
    as (i & y0 & -> & Hy0 & Hl & _).
  rewrite (bread_fill_run _ _ _ Hy0) in E.
  assert (∃ y, load c1 (Buf i) = Some y ∧ lock y = mksleeplock true pid
               ∧ b = Buf i) as (y & Hy & Hly & ->).
  { destruct (valid y0 =? 0); injection E as <- <-.
    - exists (set_valid 1 (set_data (default [] (disk c0 !! buf_key y0)) y0)).
      split; [|done]. unfold filled. rewrite load_set_io.
      by apply (load_store_eq _ _ _ _ Hy0).
    - eauto. }
  assert (holding pid y = true) as Hh.
  { unfold holding. rewrite Hly. simpl. by rewrite bool_decide_eq_true. }
  destruct (inv_dll _ _ HI1) as [l Hdll].
  assert (dll (written y c1) l) as Hdll'.
  { apply (dll_frame c1); try done. }
  destruct (brelse_run pid i y (written y c1) l (inv_spin _ _ HI1) Hy Hh Hdll')
    as (c3 & E3 & (_ & _ & _ & Hd3 & _) & _).
  exists y, (written y c1), c3. split; [done|].
  rewrite (bwrite_run _ _ _ _ Hy Hh). split_and!; try done.
  simpl. by rewrite lookup_insert_eq.
Qed.

Lemma bread_bwrite_brelse_witness :
  ∃ y c2 c3,
    load one_read (Buf 0) = Some y
    ∧ bwrite 1 (Buf 0) one_read = Ret tt c2
    ∧ disk c2 !! buf_key y = Some (data y)
    ∧ brelse 1 (Buf 0) c2 = Ret tt c3
    ∧ disk c3 = disk c2.
Proof.
  apply (bread_bwrite_brelse [] 1 1%N 1%N booted (Buf 0) one_read).
  - exact running_booted.
  - vm_compute. reflexivity.
Defined.

Lemma bget_held_sleeps hs pid pid' d bn c b c1 :
  running hs c → bget pid d bn c = Ret b c1 →
  ∃ y1 y2 c2,
    load c1 b = Some y1 ∧ lock y1 = mksleeplock true pid
    ∧ bget pid' d bn c1 = Sleep b c2
    ∧ load c2 b = Some y2
    ∧ refcnt y2 = uint_inc (refcnt y1) ∧ lock y2 = lock y1
    ∧ buf_key y2 = buf_key y1 ∧ valid y2 = valid y1 ∧ data y2 = data y1
    ∧ spin c2 = false.
Proof.
  intros Hr E. pose proof (running_Inv _ _ Hr) as HI.
  pose proof (running_Inv _ _ (running_bget _ _ _ _ _ _ _ Hr E)) as HI1.
  destruct (bget_ret hs c pid d bn b c1 HI E)
    as (i & y1 & -> & Hy1 & Hl & Hmap & _).
  exists y1, (pinned y1), (hit_state (Buf i) y1 c1).
  split; [done|]. split; [done|]. split.
  { rewrite (bget_hit pid' d bn c1 (Buf i) y1 (inv_spin _ _ HI1) Hmap
               ltac:(done) Hy1).
    by rewrite Hl. }
  split_and!; try done.
  unfold hit_state. rewrite load_set_spin. by apply (load_store_eq _ _ y1).
Qed.

(** A [bget] of a block whose buffer is locked. (1) When the hash map has
    the block at a buffer whose content lock is taken, whoever holds it,
    [bget] takes one more reference, releases the cache lock and puts its
    caller to sleep on that buffer; the key, the valid flag, the payload,
    the links and the lock holder of the buffer, every other buffer, the
    hash map, the device and [cache_size] are as they were. (2) That is the
    state a [bget] that returns leaves behind: right after it, a [bget] of
    the same block by any process sleeps in this way. *)
Theorem second_bget_sleeps :
  (∀ pid' d bn c i y,
     spin c = false → cache_map c !! (d, bn) = Some (Buf i) →
     load c (Buf i) = Some y → locked (lock y) = true →
     ∃ c2 y2,
       bget pid' d bn c = Sleep (Buf i) c2 ∧ load c2 (Buf i) = Some y2
       ∧ refcnt y2 = uint_inc (refcnt y) ∧ lock y2 = lock y
       ∧ dev y2 = dev y ∧ blockno y2 = blockno y ∧ valid y2 = valid y
       ∧ data y2 = data y ∧ prev y2 = prev y ∧ next y2 = next y
       ∧ (∀ j, j ≠ i → bufs c2 !! j = bufs c !! j)
       ∧ cache_map c2 = cache_map c ∧ head c2 = head c ∧ spin c2 = false
       ∧ cache_size c2 = cache_size c ∧ disk c2 = disk c ∧ io c2 = io c)
  ∧ (∀ hs pid pid' d bn c b c1,
       running hs c → bget pid d bn c = Ret b c1 →
       ∃ y1 y2 c2,
         load c1 b = Some y1 ∧ lock y1 = mksleeplock true pid
         ∧ bget pid' d bn c1 = Sleep b c2
         ∧ load c2 b = Some y2
         ∧ refcnt y2 = uint_inc (refcnt y1) ∧ lock y2 = lock y1
         ∧ buf_key y2 = buf_key y1 ∧ valid y2 = valid y1 ∧ data y2 = data y1
         ∧ spin c2 = false).
Proof.
  split; [|apply bget_held_sleeps].
  intros pid' d bn c i y Hs Hm Hy Hl.
  rewrite (bget_hit pid' d bn c (Buf i) y Hs Hm ltac:(done) Hy), Hl.
  exists (hit_state (Buf i) y c), (pinned y).
  split; [done|]. split_and!; try done.
  - unfold hit_state. rewrite load_set_spin. by apply (load_store_eq _ _ y).
  - intros j Hj. simpl. by rewrite list_lookup_insert_ne by done.
Qed.

(** The state after boot, a [bget] of block (1, 1) by process 1, and a
    [bpin] and a [bwrite] of the buffer by its holder. *)
Definition held_pinned_written : bcache :=
  after (bwrite 1 (Buf 0)) (after (bpin (Buf 0)) (after (bget 1 1%N 1%N) booted)).

Lemma second_bget_sleeps_witness :
  (∃ c2 y2, bget 2 1%N 1%N held_pinned_written = Sleep (Buf 0) c2
            ∧ load c2 (Buf 0) = Some y2 ∧ refcnt y2 = 3%N
            ∧ lock y2 = mksleeplock true 1)
  ∧ (∃ c2 y2,
       bget 2 1%N 1%N (after (bget 1 1%N 1%N) booted) = Sleep (Buf 0) c2
       ∧ load c2 (Buf 0) = Some y2 ∧ refcnt y2 = 2%N).
Proof.
  destruct second_bget_sleeps as [G1 G2]. split.
  - destruct (G1 2%nat 1%N 1%N held_pinned_written 0%nat
                (buf_at held_pinned_written 0))
      as (c2 & y2 & H1 & H2 & H3 & H4 & _).
    + reflexivity.
    + vm_compute. reflexivity.
    + vm_compute. reflexivity.
    + reflexivity.
    + exists c2, y2. split_and!; [exact H1|exact H2| |].
      * rewrite H3. vm_compute. reflexivity.
      * rewrite H4. vm_compute. reflexivity.
  - destruct (G2 [] 1%nat 2%nat 1%N 1%N booted (Buf 0)
                (after (bget 1 1%N 1%N) booted))
      as (y1 & y2 & c2 & H1 & _ & H2 & H3 & H4 & _).
    + exact running_booted.
    + vm_compute. reflexivity.
    + exists c2, y2. split_and!; try assumption.
      rewrite H4.
      assert (y1 = buf_at (after (bget 1 1%N 1%N) booted) 0) as ->.
      { assert (load (after (bget 1 1%N 1%N) booted) (Buf 0)
                = Some (buf_at (after (bget 1 1%N 1%N) booted) 0)) as H
          by (vm_compute; reflexivity).
        congruence. }
      vm_compute. reflexivity.
Defined.

(** [set_cache_size] adds no capacity: with the block not in the hash map
    and every buffer referenced, [bget] panics after [set_cache_size] as it
    does before, whatever size was recorded. *)
Theorem resize_adds_no_buffer pid d bn c l size :
  spin c = false → dll c l →
  cache_map c !! (d, bn) = None →
  (∀ i x, load c (Buf i) = Some x → (0 < refcnt x)%N) →
  (_ <- set_cache_size size;; bget pid d bn) c
  = Panic "bget: no buffers" (set_size size c).
Proof.
  intros Hs Hdll Hm Hbusy. unfold bind.
  rewrite (set_cache_size_run _ _ Hs).
  apply (bget_miss_none pid d bn (set_size size c) l); try done.
  - simpl. by rewrite Hm.
  - apply (dll_frame c); try done.
  - intros j _ x Hx. apply Hbusy in Hx. lia.
Qed.

Lemma resize_adds_no_buffer_witness :
  (_ <- set_cache_size 1000;; bget 1 1%N 3%N) two_held
  = Panic "bget: no buffers" (set_size 1000 two_held).
Proof.
  apply (resize_adds_no_buffer 1 1%N 3%N two_held [1%nat; 0%nat]).
  - reflexivity.
  - apply dllb_dll. vm_compute. reflexivity.
  - vm_compute. reflexivity.
  - intros [|[|i]] x Hx; vm_compute in Hx; [| |done];
      injection Hx as <-; reflexivity.
Defined.

(** A [brelse] that leaves other references: the buffer loses the caller's
    reference and its content lock is free, and nothing else changes; in
    particular the buffer keeps its place in the recency list. *)
Theorem brelse_keeps_place pid i x c l :
  spin c = false → dll c l →
  load c (Buf i) = Some x → holding pid x = true →
  uint_dec (refcnt x) ≠ 0%N →
  brelse pid (Buf i) c
  = Ret tt (store c (Buf i)
              (set_refcnt (uint_dec (refcnt x))
                 (set_lock (mksleeplock false 0) x)))
  ∧ dll (store c (Buf i)
           (set_refcnt (uint_dec (refcnt x))
              (set_lock (mksleeplock false 0) x))) l.
Proof.
  intros Hs Hdll Hx Hh Hnz.
  fold lock0. change (set_refcnt _ (set_lock lock0 x)) with (released x).
  assert ((refcnt (released x) =? 0)%N = false) as Hz
    by (by apply N.eqb_neq).
  split.
  - unfold brelse.
    rewrite (holdingsleep_run _ _ _ _ _ Hx), Hh. simpl negb. cbv iota.
    rewrite bind_ret. unfold releasesleep. rewrite (bind_wr _ _ _ _ _ Hx).
    fold lock0.
    set (c1 := store c (Buf i) (set_lock lock0 x)).
    assert (spin c1 = false) as Hs1 by done.
    rewrite (bind_acquire _ _ Hs1).
    assert (load (set_spin true c1) (Buf i) = Some (set_lock lock0 x)) as H2.
    { rewrite load_set_spin. by apply (load_store_eq _ _ x). }
    rewrite (bind_rd _ _ _ _ H2), (bind_wr _ _ _ _ _ H2).
    change (set_refcnt _ (set_lock lock0 x)) with (released x).
    unfold c1. rewrite store_set_spin.
    assert (load (set_spin true (store c (Buf i) (released x))) (Buf i)
            = Some (released x)) as H3.
    { rewrite load_set_spin. by apply (load_store_eq _ _ x). }
    rewrite (bind_rd _ _ _ _ H3), Hz, bind_ret.
    unfold release, modify. f_equal.
    destruct c. simpl in *. by subst.
  - destruct (store_meta c (Buf i) x (released x) Hx eq_refl eq_refl)
      as (Hn & Hp & _).
    apply (dll_frame c); try done.
    apply frame_NBUF, frame_store.
Qed.

Lemma brelse_keeps_place_witness :
  ∃ c', brelse 1 (Buf 0) (after (bpin (Buf 0)) one_read) = Ret tt c'
        ∧ dll c' [1%nat; 0%nat].
Proof.
  destruct (brelse_keeps_place 1 0
              (buf_at (after (bpin (Buf 0)) one_read) 0)
              (after (bpin (Buf 0)) one_read) [1%nat; 0%nat]) as [H1 H2].
  - reflexivity.
  - apply dllb_dll. vm_compute. reflexivity.
  - vm_compute. reflexivity.
  - reflexivity.
  - vm_compute. discriminate.
  - eexists. split; [exact H1|exact H2].
Defined.

(** The content lock is handed over: when a second process sleeps in [bget]
    on a buffer and the holder calls [brelse], the buffer keeps the
    sleeper's reference, and the sleeper, once woken up, gets the content
    lock of that same buffer. *)
Theorem lock_handoff hs pid pid' d bn c b c1 c2 :
  running hs c →
  bget pid d bn c = Ret b c1 → bget pid' d bn c1 = Sleep b c2 →
  ∃ y1 c3 c4 y4,
    load c1 b = Some y1
    ∧ brelse pid b c2 = Ret tt c3
    ∧ acquiresleep pid' b c3 = Ret tt c4
    ∧ load c4 b = Some y4
    ∧ lock y4 = mksleeplock true pid'
    ∧ refcnt y4 = uint_dec (uint_inc (refcnt y1))
    ∧ buf_key y4 = buf_key y1 ∧ valid y4 = valid y1 ∧ data y4 = data y1.
Proof.
  intros Hr E1 E2.
  assert (running (b :: b :: hs) c2) as Hr2.
  { apply (run_sleep (b :: hs) c1 (Bget pid' d bn) b c2).
    - by apply (running_bget hs c pid d bn).
    - intros b' Hb'. done.
    - unfold exec, bind. by rewrite E2. }
  pose proof (running_Inv _ _ Hr2) as HI2.
  destruct (bget_held_sleeps hs pid pid' d bn c b c1 Hr E1)
    as (y1 & y2 & c2' & Hy1 & Hl1 & E2' & Hy2 & Hr2' & Hl2 & Hk2 & Hv2 & Hd2 & _).
  assert (c2' = c2) as -> by congruence.
  destruct (Inv_index_load _ c2 b HI2) as (i & y2' & -> & _).
  { apply (inv_handles _ _ HI2). set_solver. }
  assert (holding pid y2 = true) as Hh.
  { unfold holding. rewrite Hl2, Hl1. simpl. by rewrite bool_decide_eq_true. }
  destruct (inv_dll _ _ HI2) as [l Hdll].
  destruct (brelse_run pid i y2 c2 l (inv_spin _ _ HI2) Hy2 Hh Hdll)
    as (c3 & E3 & _ & Hm3 & _).
  assert (∃ z, load c3 (Buf i) = Some z ∧ meta z = meta (released y2))
    as (z & Hz & Ez).
  { specialize (Hm3 (Buf i)). rewrite decide_True in Hm3 by done.
    unfold mt in Hm3. destruct (load c3 (Buf i)) as [z|]; [|done].
    exists z. split; [done|]. simpl in Hm3. congruence. }
  assert (locked (lock z) = false) as Hlz.
  { apply (f_equal (λ u, locked (lock u))) in Ez. exact Ez. }
  exists y1, c3, (store c3 (Buf i) (set_lock (mksleeplock true pid') z)),
    (set_lock (mksleeplock true pid') z).
  split; [done|]. split; [done|]. split.
  { rewrite (acquiresleep_run _ _ _ _ Hz). by rewrite Hlz. }
  split; [by apply (load_store_eq _ _ z)|]. split; [done|].
  split_and!.
  - apply (f_equal refcnt) in Ez. simpl in Ez. simpl. by rewrite Ez, Hr2'.
  - apply (f_equal buf_key) in Ez. simpl in Ez.
    unfold buf_key in *. simpl in *. congruence.
  - apply (f_equal valid) in Ez. simpl in Ez. simpl. congruence.
  - apply (f_equal data) in Ez. simpl in Ez. simpl. congruence.
Qed.

Lemma lock_handoff_witness :
  ∃ c3 c4 y4,
    brelse 1 (Buf 0)
      (after (bget 2 1%N 1%N) (after (bget 1 1%N 1%N) booted)) = Ret tt c3
    ∧ acquiresleep 2 (Buf 0) c3 = Ret tt c4
    ∧ load c4 (Buf 0) = Some y4
    ∧ lock y4 = mksleeplock true 2.
Proof.
  destruct (lock_handoff [] 1 2 1%N 1%N booted (Buf 0)
              (after (bget 1 1%N 1%N) booted)
              (after (bget 2 1%N 1%N) (after (bget 1 1%N 1%N) booted)))
    as (y1 & c3 & c4 & y4 & _ & H1 & H2 & H3 & H4 & _).
  - exact running_booted.
  - vm_compute. reflexivity.
  - vm_compute. reflexivity.
  - exists c3, c4, y4. split_and!; assumption.
Defined.
